(** * pil-css: a flexbox-style layout engine over raster images

    Shallow embedding of [pil_css.py] (and of the older copy [main.py]):
    the [FlexBox] container with [add_items] and [render], and the helpers
    [add_padding] and [position_relative].

    Python objects that are mutated in place are kept in an explicit store:
    every [Image.Image] object lives at a location of the image heap, and
    [paste] rewrites the heap cell of its destination.  A [FlexBox] is a
    tree (a box owns its nested boxes); a method call takes the box and the
    heap and gives back both, together with the value returned or the
    exception raised.  An exception does not roll the state back. *)

From Stdlib Require Import ZArith Lia List String Bool.
From stdpp Require Import base list.
Set Warnings "-register-all".
Import ListNotations.
Local Open Scope string_scope.
Local Open Scope list_scope.
Local Open Scope Z_scope.

(** ** Results of Python calls *)

Inductive Exn : Type :=
| ValueError (msg : string)
| ZeroDivisionError
| AssertionError (msg : string).

Inductive Res (A : Type) : Type :=
| Ok (a : A)
| Raise (e : Exn).
Arguments Ok {A} a.
Arguments Raise {A} e.

Definition res_map {A B : Type} (f : A -> B) (r : Res A) : Res B :=
  match r with
  | Ok a => Ok (f a)
  | Raise e => Raise e
  end.

(** An object reference: the index of the object in the heap. *)
Definition loc : Type := nat.

(** ** The part of Pillow the source uses

    [Image.new], the attributes [width], [height] and [size], and
    [paste(im, box, mask)] with the pasted image as its own mask.  All
    images are RGBA.  How one source pixel is composited over one
    destination pixel is Pillow's business: it is the parameter [blend] of
    the development. *)

Module PIL.

Definition Pixel : Type := (Z * Z * Z * Z)%type.

Record Image : Type := {
  width : Z;
  height : Z;
  getpixel : Z -> Z -> Pixel
}.

Definition size (im : Image) : Z * Z := (width im, height im).

(** A reference that names no object reads as the empty image; the
    source never holds such a reference. *)
Definition empty : Image :=
  {| width := 0; height := 0; getpixel := fun _ _ => (0, 0, 0, 0) |}.

Definition deref (h : list Image) (l : loc) : Image :=
  match h !! l with
  | Some im => im
  | None => empty
  end.

(** [Image.new("RGBA", size, color)]: a fresh object filled with
    [color]; Pillow refuses a negative width or height.  Sizes are taken
    within the range of a C [int]: beyond it Pillow raises
    [OverflowError], which is not modelled. *)
Definition new (sz : Z * Z) (color : Pixel) (h : list Image)
  : list Image * Res loc :=
  if (fst sz <? 0) || (snd sz <? 0)
  then (h, Raise (ValueError "Width and height must be >= 0"))
  else (h ++ [{| width := fst sz; height := snd sz;
                 getpixel := fun _ _ => color |}],
        Ok (length h)).

Definition covers (src : Image) (box : Z * Z) (x y : Z) : bool :=
  (0 <=? x - fst box) && (x - fst box <? width src)
  && (0 <=? y - snd box) && (y - snd box <? height src).

Section Paste.
Variable blend : Pixel -> Pixel -> Pixel.

(** The pixels of [dst] after [src] was pasted at [box] with itself as
    mask: inside the pasted rectangle every pixel is composited, the
    rest is untouched; the rectangle is clipped to [dst], whose size
    does not change. *)
Definition pasted (dst src : Image) (box : Z * Z) : Image :=
  {| width := width dst;
     height := height dst;
     getpixel := fun x y =>
       if covers src box x y
       then blend (getpixel dst x y)
                  (getpixel src (x - fst box) (y - snd box))
       else getpixel dst x y |}.

(** [self.paste(im, box, im)]: mutates the object at [self] only.
    Coordinates are taken within the range of a C [int] (beyond it
    Pillow raises [OverflowError], which is not modelled), and the
    source is read before the destination is written, which is what
    Pillow does when the two are distinct objects. *)
Definition paste (self im : loc) (box : Z * Z) (h : list Image)
  : list Image :=
  <[self := pasted (deref h self) (deref h im) box]> h.
End Paste.

(** The pixels of [dst] after [src] was pasted at [box] without a mask:
    the pasted rectangle is copied as it is. *)
Definition copied (dst src : Image) (box : Z * Z) : Image :=
  {| width := width dst;
     height := height dst;
     getpixel := fun x y =>
       if covers src box x y
       then getpixel src (x - fst box) (y - snd box)
       else getpixel dst x y |}.

(** [self.paste(im, box)] *)
Definition paste_copy (self im : loc) (box : Z * Z) (h : list Image)
  : list Image :=
  <[self := copied (deref h self) (deref h im) box]> h.

(** Pillow's integer compositing of RGBA over RGBA with the alpha band
    of the source as the mask; used to run the examples. *)
Definition DIV255 (a : Z) : Z :=
  let tmp := a + 128 in Z.shiftr (Z.shiftr tmp 8 + tmp) 8.

Definition BLEND (mask in1 in2 : Z) : Z :=
  DIV255 (in1 * (255 - mask) + in2 * mask).

Definition blend_RGBA (dst src : Pixel) : Pixel :=
  let '(r0, g0, b0, a0) := dst in
  let '(r, g, b, a) := src in
  (BLEND a r0 r, BLEND a g0 g, BLEND a b0 b, BLEND a a0 a).

End PIL.

Abbreviation Heap := (list PIL.Image).

(** ** Python built-ins *)

(** [max(iterable)] raises on an empty iterable. *)
Definition py_max (xs : list Z) : Res Z :=
  match xs with
  | [] => Raise (ValueError "max() arg is an empty sequence")
  | x :: rest => Ok (fold_left Z.max rest x)
  end.

Definition py_sum (xs : list Z) : Z := fold_left Z.add xs 0.

(** [a // b]: floor division, which is what [Z.div] computes for a
    divisor of either sign; a zero divisor raises. *)
Definition py_floordiv (a b : Z) : Res Z :=
  if b =? 0 then Raise ZeroDivisionError else Ok (a / b).

(** ** The container *)

(** A child is a raw image or a nested box ([Image.Image | FlexBox]). *)
Inductive Child (B : Type) : Type :=
| ImageItem (im : loc)
| BoxItem (box : B).
Arguments ImageItem {B} im.
Arguments BoxItem {B} box.

Inductive FlexBox : Type := Build_FlexBox {
  image : loc;
  size : Z * Z;
  width : Z;
  height : Z;
  items : list (Child FlexBox);
  padding : Z;
  gap : Z;
  direction : string;
  justify : string;
  align_items : string;
  flex_wrap : string;
  allow_resize : bool;
  _rendered : bool
}.

Abbreviation Item := (Child FlexBox).

Definition __init__ (h : Heap) (image : loc) (padding gap : Z)
    (direction justify align_items flex_wrap : string) (allow_resize : bool)
  : FlexBox :=
  {| image := image;
     size := PIL.size (PIL.deref h image);
     width := PIL.width (PIL.deref h image);
     height := PIL.height (PIL.deref h image);
     items := [];
     padding := padding;
     gap := gap;
     direction := direction;
     justify := justify;
     align_items := align_items;
     flex_wrap := flex_wrap;
     allow_resize := allow_resize;
     _rendered := false |}.

(** Field assignments ([self.items = ...] and the like). *)
Definition set_items (self : FlexBox) (its : list Item) : FlexBox :=
  Build_FlexBox (image self) (size self) (width self) (height self) its
    (padding self) (gap self) (direction self) (justify self)
    (align_items self) (flex_wrap self) (allow_resize self) (_rendered self).

Definition set_image (self : FlexBox) (im : loc) : FlexBox :=
  Build_FlexBox im (size self) (width self) (height self) (items self)
    (padding self) (gap self) (direction self) (justify self)
    (align_items self) (flex_wrap self) (allow_resize self) (_rendered self).

Definition set_width_height (self : FlexBox) (wh : Z * Z) : FlexBox :=
  Build_FlexBox (image self) (size self) (fst wh) (snd wh) (items self)
    (padding self) (gap self) (direction self) (justify self)
    (align_items self) (flex_wrap self) (allow_resize self) (_rendered self).

Definition set_rendered (self : FlexBox) (r : bool) : FlexBox :=
  Build_FlexBox (image self) (size self) (width self) (height self)
    (items self) (padding self) (gap self) (direction self) (justify self)
    (align_items self) (flex_wrap self) (allow_resize self) r.

(** [add_items]: refused once the box is rendered, otherwise the given
    children are appended in order.  The state after the call comes with
    the result. *)
Definition add_items (self : FlexBox) (new_items : list Item)
  : FlexBox * Res unit :=
  if _rendered self
  then (self, Raise (ValueError "Cannot add items after rendering"))
  else (set_items self (items self ++ new_items), Ok tt).

Definition transparent : PIL.Pixel := (0, 0, 0, 0).
Definition opaque_white : PIL.Pixel := (255, 255, 255, 255).

(** Python truthiness of an [int | None] argument: [None] and [0] are
    false. *)
Definition truthy (x : option Z) : bool :=
  match x with
  | Some v => negb (v =? 0)
  | None => false
  end.

Section Layout.

(** Pillow's compositing of one source pixel over one destination
    pixel. *)
Variable blend : PIL.Pixel -> PIL.Pixel -> PIL.Pixel.

(** ** [add_padding] *)

(** The two statements every branch of [add_padding] ends with:
    [new_image = Image.new("RGBA", new_size, fill)] and
    [new_image.paste(image, at, image)]. *)
Definition new_and_paste (image : loc) (new_size : Z * Z)
    (fill : PIL.Pixel) (at_ : Z * Z) (h : Heap) : Heap * Res loc :=
  match PIL.new new_size fill h with
  | (h1, Raise e) => (h1, Raise e)
  | (h1, Ok new_image) =>
      (PIL.paste blend new_image image at_ h1, Ok new_image)
  end.

Definition add_padding (image : loc) (padding : Z) (type : string)
    (h : Heap) : Heap * Res loc :=
  let im := PIL.deref h image in
  if (type =? "all")%string then
    new_and_paste image
      (PIL.width im + 2 * padding, PIL.height im + 2 * padding)
      transparent (padding, padding) h
  else if (type =? "left")%string then
    new_and_paste image (PIL.width im + padding, PIL.height im)
      transparent (padding, 0) h
  else if (type =? "right")%string then
    new_and_paste image (PIL.width im + padding, PIL.height im)
      transparent (0, 0) h
  else if (type =? "top")%string then
    new_and_paste image (PIL.width im, PIL.height im + padding)
      transparent (0, padding) h
  else if (type =? "bottom")%string then
    new_and_paste image (PIL.width im, PIL.height im + padding)
      transparent (0, 0) h
  else if (type =? "x")%string then
    new_and_paste image (PIL.width im + padding * 2, PIL.height im)
      opaque_white (padding, 0) h
  else if (type =? "y")%string then
    new_and_paste image (PIL.width im, PIL.height im + padding * 2)
      opaque_white (0, padding) h
  else (h, Raise (ValueError ("Invalid type: " ++ type)%string)).

(** ** [position_relative] *)

Definition position_relative (base image : loc)
    (top bottom left right : option Z) (h : Heap) : Heap * Res loc :=
  if truthy top && truthy bottom then
    (h, Raise (ValueError "Cannot set both top and bottom"))
  else if truthy left && truthy right then
    (h, Raise (ValueError "Cannot set both left and right"))
  else
    let top1 := match top, bottom with
                | None, None => Some 0
                | _, _ => top
                end in
    let left1 := match left, right with
                 | None, None => Some 0
                 | _, _ => left
                 end in
    let top2 := match bottom with
                | Some b => Some (PIL.height (PIL.deref h base) - b
                                  - PIL.height (PIL.deref h image))
                | None => top1
                end in
    let left2 := match right with
                 | Some r => Some (PIL.width (PIL.deref h base) - r
                                   - PIL.width (PIL.deref h image))
                 | None => left1
                 end in
    match top2, left2 with
    | None, _ => (h, Raise (AssertionError "Top must be set"))
    | Some _, None => (h, Raise (AssertionError "Left must be set"))
    | Some t, Some l => (PIL.paste blend base image (l, t) h, Ok base)
    end.

(** ** [FlexBox.render] *)

Definition is_row (self : FlexBox) : bool :=
  (direction self =? "row")%string.

(** [item.width if self.direction == "row" else item.height] *)
Definition main_of (self : FlexBox) (im : PIL.Image) : Z :=
  if is_row self then PIL.width im else PIL.height im.

(** [item.height if self.direction == "row" else item.width] *)
Definition cross_of (self : FlexBox) (im : PIL.Image) : Z :=
  if is_row self then PIL.height im else PIL.width im.

(** [self.width if self.direction == "row" else self.height] *)
Definition container_main (self : FlexBox) : Z :=
  if is_row self then width self else height self.

(** [self.height if self.direction == "row" else self.width] *)
Definition container_cross (self : FlexBox) : Z :=
  if is_row self then height self else width self.

(** Step 1, one turn of the loop over [rendered_items]; the loop state
    is [(lines, current_line, current_main)]. *)
Definition line_break_step (self : FlexBox) (h : Heap)
    (st : list (list loc) * list loc * Z) (item : loc)
  : list (list loc) * list loc * Z :=
  let '(lines, current_line, current_main) := st in
  let item_main := main_of self (PIL.deref h item) in
  let required_space :=
    item_main + (match current_line with [] => 0 | _ => gap self end) in
  if (flex_wrap self =? "wrap")%string
     && (container_main self - 2 * padding self
         <? current_main + required_space)
  then (lines ++ [current_line], [item], item_main)
  else (lines, current_line ++ [item], current_main + required_space).

Definition line_break (self : FlexBox) (h : Heap)
    (rendered_items : list loc) : list (list loc) :=
  let '(lines, current_line, _) :=
    fold_left (line_break_step self h) rendered_items ([], [], 0) in
  match current_line with
  | [] => lines
  | _ => lines ++ [current_line]
  end.

(** [sum(max(cross of item for item in line) + self.gap for line in
    lines)] *)
Fixpoint sum_max_cross (self : FlexBox) (h : Heap)
    (lines : list (list loc)) (acc : Z) : Res Z :=
  match lines with
  | [] => Ok acc
  | line :: rest =>
      match py_max (map (fun item => cross_of self (PIL.deref h item))
                        line) with
      | Raise e => Raise e
      | Ok m => sum_max_cross self h rest (acc + (m + gap self))
      end
  end.

Definition total_max (self : FlexBox) (h : Heap)
    (lines : list (list loc)) : Res Z :=
  sum_max_cross self h lines 0.

(** The growth of the canvas: [if total_max > self.height: ...]. *)
Definition grow (self : FlexBox) (total_max : Z) (h : Heap)
  : FlexBox * Heap * Res unit :=
  if height self <? total_max then
    match add_padding (image self)
            (total_max - container_cross self + padding self * 2)
            (if is_row self then "bottom" else "right") h with
    | (h1, Raise e) => (self, h1, Raise e)
    | (h1, Ok new_image) =>
        (set_width_height (set_image self new_image)
           (PIL.size (PIL.deref h1 new_image)),
         h1, Ok tt)
    end
  else (self, h, Ok tt).

(** The justify chain: the start of the main cursor and the gap used
    between the items of one line. *)
Definition main_cursor_and_gap (self : FlexBox)
    (total_main_size num_items : Z) : Res (Z * Z) :=
  let total_gap_space :=
    container_main self - 2 * padding self - total_main_size in
  if (justify self =? "start")%string then
    Ok (padding self, gap self)
  else if (justify self =? "end")%string then
    Ok (container_main self - padding self - total_main_size
        - gap self * (num_items - 1),
        gap self)
  else if (justify self =? "center")%string then
    Ok (padding self
        + (total_gap_space - gap self * (num_items - 1)) / 2,
        gap self)
  else if (justify self =? "space-between")%string && (1 <? num_items)
  then
    res_map (fun g => (padding self, g))
            (py_floordiv total_gap_space (num_items - 1))
  else if (justify self =? "space-around")%string then
    res_map (fun g => (padding self + g / 2, g))
            (py_floordiv total_gap_space num_items)
  else if (justify self =? "space-evenly")%string then
    res_map (fun g => (padding self + g, g))
            (py_floordiv total_gap_space (num_items + 1))
  else Ok (padding self, gap self).

(** The cross coordinate of one item inside the band of its line. *)
Definition cross_position (self : FlexBox)
    (cross_cursor alignment_offset max_cross item_cross : Z) : Z :=
  if (align_items self =? "center")%string then
    cross_cursor + (alignment_offset + (max_cross - item_cross)) / 2
  else if (align_items self =? "end")%string then
    cross_cursor + (alignment_offset + (max_cross - item_cross))
  else cross_cursor.

(** One turn of [for item in line]; the loop state is the main cursor
    and the heap. *)
Definition place_item (self : FlexBox)
    (cross_cursor alignment_offset max_cross gap : Z)
    (st : Z * Heap) (item : loc) : Z * Heap :=
  let '(main_cursor, h) := st in
  let cross :=
    cross_position self cross_cursor alignment_offset max_cross
      (cross_of self (PIL.deref h item)) in
  let h1 :=
    PIL.paste blend (image self) item
      (if is_row self then (main_cursor, cross) else (cross, main_cursor))
      h in
  (main_cursor + (main_of self (PIL.deref h1 item) + gap), h1).

(** Step 2: [for _, line in enumerate(lines)]. *)
Fixpoint render_lines (self : FlexBox) (alignment_offset : Z)
    (lines : list (list loc)) (cross_cursor : Z) (h : Heap)
  : Heap * Res unit :=
  match lines with
  | [] => (h, Ok tt)
  | line :: rest =>
      match py_max (map (fun item => cross_of self (PIL.deref h item))
                        line) with
      | Raise e => (h, Raise e)
      | Ok max_cross =>
          let total_main_size :=
            py_sum (map (fun item => main_of self (PIL.deref h item))
                        line) in
          let num_items := Z.of_nat (length line) in
          match main_cursor_and_gap self total_main_size num_items with
          | Raise e => (h, Raise e)
          | Ok (main_cursor, gap_) =>
              let '(_, h1) :=
                fold_left
                  (place_item self cross_cursor alignment_offset
                     max_cross gap_)
                  line (main_cursor, h) in
              render_lines self alignment_offset rest
                (cross_cursor + (max_cross + gap self)) h1
          end
      end
  end.

(** [render] from [current_main = 0] on, once the children are
    flattened into [rendered_items]. *)
Definition render_items (self : FlexBox) (rendered_items : list loc)
    (h : Heap) : FlexBox * Heap * Res loc :=
  let lines := line_break self h rendered_items in
  match total_max self h lines with
  | Raise e => (self, h, Raise e)
  | Ok tm =>
      match grow self tm h with
      | (self1, h1, Raise e) => (self1, h1, Raise e)
      | (self1, h1, Ok _) =>
          let alignment_offset := container_cross self1 - tm in
          match render_lines self1 alignment_offset lines
                  (padding self1) h1 with
          | (h2, Raise e) => (self1, h2, Raise e)
          | (h2, Ok _) => (set_rendered self1 true, h2, Ok (image self1))
          end
      end
  end.

(** The first loop of [render]: a nested box is rendered (and stays
    rendered, also when a later child raises), a raw image is taken as
    it is. *)
Definition flatten
    (render : FlexBox -> Heap -> FlexBox * Heap * Res loc)
  : list Item -> Heap -> list Item * Heap * Res (list loc) :=
  fix go (its : list Item) (h : Heap) :=
    match its with
    | [] => ([], h, Ok [])
    | ImageItem im :: rest =>
        let '(rest1, h1, r) := go rest h in
        (ImageItem im :: rest1, h1, res_map (cons im) r)
    | BoxItem box :: rest =>
        match render box h with
        | (box1, h1, Raise e) => (BoxItem box1 :: rest, h1, Raise e)
        | (box1, h1, Ok im) =>
            let '(rest1, h2, r) := go rest h1 in
            (BoxItem box1 :: rest1, h2, res_map (cons im) r)
        end
    end.

Fixpoint render (self : FlexBox) (h : Heap) {struct self}
  : FlexBox * Heap * Res loc :=
  match self with
  | Build_FlexBox image0 _ _ _ items0 _ _ _ _ _ _ _ rendered0 =>
      if rendered0 then (self, h, Ok image0)
      else
        match items0 with
        | [] => (self, h, Ok image0)
        | _ :: _ =>
            match flatten render items0 h with
            | (items1, h1, Raise e) => (set_items self items1, h1, Raise e)
            | (items1, h1, Ok rendered_items) =>
                render_items (set_items self items1) rendered_items h1
            end
        end
  end.

End Layout.

(** ** The older copy, [main.py]

    Its [FlexBox] is the same class without the growth of the canvas:
    [render] goes from [total_max] straight to [alignment_offset]. *)

Module MainPy.
Section Layout.
Variable blend : PIL.Pixel -> PIL.Pixel -> PIL.Pixel.

Definition render_items (self : FlexBox) (rendered_items : list loc)
    (h : Heap) : FlexBox * Heap * Res loc :=
  let lines := line_break self h rendered_items in
  match total_max self h lines with
  | Raise e => (self, h, Raise e)
  | Ok tm =>
      let alignment_offset := container_cross self - tm in
      match render_lines blend self alignment_offset lines
              (padding self) h with
      | (h2, Raise e) => (self, h2, Raise e)
      | (h2, Ok _) => (set_rendered self true, h2, Ok (image self))
      end
  end.

Fixpoint render (self : FlexBox) (h : Heap) {struct self}
  : FlexBox * Heap * Res loc :=
  match self with
  | Build_FlexBox image0 _ _ _ items0 _ _ _ _ _ _ _ rendered0 =>
      if rendered0 then (self, h, Ok image0)
      else
        match items0 with
        | [] => (self, h, Ok image0)
        | _ :: _ =>
            match flatten render items0 h with
            | (items1, h1, Raise e) =>
                (set_items self items1, h1, Raise e)
            | (items1, h1, Ok rendered_items) =>
                render_items (set_items self items1) rendered_items h1
            end
        end
  end.
End Layout.
End MainPy.

(** ** The other helpers of [pil_css.py] *)

(** [add_border(image, thickness=..., color=...)]; the colour is an RGBA
    tuple. *)
Definition add_border (image : loc) (thickness : Z) (color : PIL.Pixel)
    (h : Heap) : Heap * Res loc :=
  let im := PIL.deref h image in
  match PIL.new (PIL.width im + 2 * thickness, PIL.height im + 2 * thickness)
          color h with
  | (h1, Raise e) => (h1, Raise e)
  | (h1, Ok new_image) =>
      (PIL.paste_copy new_image image (thickness, thickness) h1,
       Ok new_image)
  end.

(** A colour argument of [change_background]: a colour name or an RGBA
    tuple (the two forms the function tells apart). *)
Inductive Ink : Type :=
| InkName (name : string)
| InkRGBA (color : PIL.Pixel).

Section Helpers.

Variable blend : PIL.Pixel -> PIL.Pixel -> PIL.Pixel.

(** [ImageColor.getcolor(name, "RGBA")]: the RGBA tuple of a colour name,
    or the [ValueError] of an unknown name. *)
Variable getcolor : string -> Res PIL.Pixel.

(** [image.save(buffer, format="PNG")] followed by [buffer.getvalue()]. *)
Variable save_png : PIL.Image -> list Byte.byte.

(** [change_background(image, background, alpha)].  A name is resolved
    and its alpha replaced by [alpha] (the tuple returned for the mode
    RGBA has four entries, so [background[:3] + (alpha,)] applies); a
    tuple is used as it is. *)
Definition change_background (image : loc) (background : Ink) (alpha : Z)
    (h : Heap) : Heap * Res loc :=
  let resolved :=
    match background with
    | InkName name =>
        res_map (fun c => let '(r, g, b, _) := c in (r, g, b, alpha))
                (getcolor name)
    | InkRGBA c => Ok c
    end in
  match resolved with
  | Raise e => (h, Raise e)
  | Ok c => new_and_paste blend image (PIL.size (PIL.deref h image)) c
              (0, 0) h
  end.

(** [FlexBox.get_rendered_bytes] *)
Definition get_rendered_bytes (self : FlexBox) (h : Heap)
  : FlexBox * Heap * Res (list Byte.byte) :=
  match render blend self h with
  | (self1, h1, Raise e) => (self1, h1, Raise e)
  | (self1, h1, Ok _) =>
      (self1, h1, Ok (save_png (PIL.deref h1 (image self1))))
  end.

End Helpers.

(** ** Vocabulary of the statements *)

(** Assignments to the configuration fields, to compare two boxes that
    differ in one of them. *)
Definition set_direction (self : FlexBox) (d : string) : FlexBox :=
  Build_FlexBox (image self) (size self) (width self) (height self)
    (items self) (padding self) (gap self) d (justify self)
    (align_items self) (flex_wrap self) (allow_resize self) (_rendered self).

Definition set_justify (self : FlexBox) (j : string) : FlexBox :=
  Build_FlexBox (image self) (size self) (width self) (height self)
    (items self) (padding self) (gap self) (direction self) j
    (align_items self) (flex_wrap self) (allow_resize self) (_rendered self).

Definition set_align_items (self : FlexBox) (a : string) : FlexBox :=
  Build_FlexBox (image self) (size self) (width self) (height self)
    (items self) (padding self) (gap self) (direction self) (justify self)
    a (flex_wrap self) (allow_resize self) (_rendered self).

Definition set_flex_wrap (self : FlexBox) (w : string) : FlexBox :=
  Build_FlexBox (image self) (size self) (width self) (height self)
    (items self) (padding self) (gap self) (direction self) (justify self)
    (align_items self) w (allow_resize self) (_rendered self).

Definition set_allow_resize (self : FlexBox) (r : bool) : FlexBox :=
  Build_FlexBox (image self) (size self) (width self) (height self)
    (items self) (padding self) (gap self) (direction self) (justify self)
    (align_items self) (flex_wrap self) r (_rendered self).

(** The canvases of a box and of the boxes nested in it. *)
Fixpoint canvases (self : FlexBox) : list loc :=
  match self with
  | Build_FlexBox image0 _ _ _ items0 _ _ _ _ _ _ _ _ =>
      image0 :: flat_map (fun it => match it with
                                    | ImageItem _ => []
                                    | BoxItem box => canvases box
                                    end) items0
  end.

(** The main-axis extent of a line: the main sizes of its items plus one
    configured gap between each adjacent pair. *)
Definition line_extent (self : FlexBox) (h : Heap) (line : list loc) : Z :=
  match line with
  | [] => 0
  | _ => py_sum (map (fun item => main_of self (PIL.deref h item)) line)
         + gap self * (Z.of_nat (length line) - 1)
  end.

(** What a line may be after the line breaking of a wrapping box: within
    the bound, or one item that alone exceeds it. *)
Definition line_fits (self : FlexBox) (h : Heap) (line : list loc) : Prop :=
  line_extent self h line <= container_main self - 2 * padding self
  \/ exists item, line = [item]
       /\ container_main self - 2 * padding self
          < main_of self (PIL.deref h item).

(** Two boxes in the same state whose configuration literals lead
    [render] to the same decisions: the tests on the direction, the wrap
    mode and the alignment have the same answers, and the justify chain
    gives the same cursor and gap. *)
Definition same_state (a b : FlexBox) : Prop :=
  image a = image b /\ size a = size b /\ width a = width b
  /\ height a = height b /\ items a = items b /\ padding a = padding b
  /\ gap a = gap b /\ _rendered a = _rendered b.

Definition justify_alike (ja jb : string) : Prop :=
  forall (s : FlexBox) (total_main_size num_items : Z),
    main_cursor_and_gap (set_justify s ja) total_main_size num_items
    = main_cursor_and_gap (set_justify s jb) total_main_size num_items.

Definition same_tests (a b : FlexBox) : Prop :=
  (direction a =? "row")%string = (direction b =? "row")%string
  /\ (flex_wrap a =? "wrap")%string = (flex_wrap b =? "wrap")%string
  /\ justify_alike (justify a) (justify b)
  /\ (align_items a =? "center")%string = (align_items b =? "center")%string
  /\ (align_items a =? "end")%string = (align_items b =? "end")%string.

Definition layout_equiv (a b : FlexBox) : Prop :=
  same_state a b /\ same_tests a b.

(** The invariant of the line-breaking loop of a wrapping box once the
    first child is on the current line. *)
Definition wrap_inv (self : FlexBox) (h : Heap)
    (st : list (list loc) * list loc * Z) : Prop :=
  let '(lines, cur, cm) := st in
  cur <> [] /\ cm = line_extent self h cur /\ line_fits self h cur
  /\ Forall (fun l => l <> [] /\ line_fits self h l) lines.

(** The outcome of a call on two boxes: the same heap and result, and
    boxes that are again in the same state. *)
Definition same_outcome {A : Type}
    (x y : FlexBox * Heap * Res A) : Prop :=
  snd (fst x) = snd (fst y) /\ snd x = snd y
  /\ layout_equiv (fst (fst x)) (fst (fst y)).

(** Between [h] and [h1] no object was lost, and every object older than
    [n] that is not one of [cs] is what it was. *)
Definition unchanged_below (n : nat) (cs : list loc) (h h1 : Heap) : Prop :=
  (length h <= length h1)%nat
  /\ forall l, (l < n)%nat -> ~ In l cs -> h1 !! l = h !! l.

(** Between [h] and [h1] every object is still there with the size it
    had. *)
Definition sizes_kept (h h1 : Heap) : Prop :=
  forall l im, h !! l = Some im ->
    exists im1, h1 !! l = Some im1 /\ PIL.size im1 = PIL.size im.

(** The two exceptions of [render] in this model: that of [max()] on an
    empty line and that of [Image.new] on a negative size. *)
Definition render_error (e : Exn) : Prop :=
  e = ValueError "max() arg is an empty sequence"
  \/ e = ValueError "Width and height must be >= 0".

(** The alpha band of a pixel, and the pixels an RGBA image can hold. *)
Definition alpha (p : PIL.Pixel) : Z := snd p.

Definition valid_pixel (p : PIL.Pixel) : Prop :=
  let '(r, g, b, a) := p in
  0 <= r <= 255 /\ 0 <= g <= 255 /\ 0 <= b <= 255 /\ 0 <= a <= 255.

(** The paste position of an item at main coordinate [main] and cross
    coordinate [cross]: [(main, cross)] in a row, [(cross, main)] in a
    column. *)
Definition paste_position (self : FlexBox) (main cross : Z) : Z * Z :=
  if is_row self then (main, cross) else (cross, main).

(** The configuration a box was built with. *)
Definition config (self : FlexBox)
  : Z * Z * string * string * string * string * bool :=
  (padding self, gap self, direction self, justify self, align_items self,
   flex_wrap self, allow_resize self).

(** *** The justify table, as the specification words it *)

Inductive JustifyMode : Type :=
| JStart | JEnd | JCenter | JSpaceBetween | JSpaceAround | JSpaceEvenly.

Definition justify_literal (m : JustifyMode) : string :=
  match m with
  | JStart => "start"
  | JEnd => "end"
  | JCenter => "center"
  | JSpaceBetween => "space-between"
  | JSpaceAround => "space-around"
  | JSpaceEvenly => "space-evenly"
  end.

(** Cursor start and effective gap of a line of [num_items] items of
    total main size [total_main_size]; every division is the floor
    division of integers, and space-between with one item is start. *)
Definition justify_table (m : JustifyMode)
    (container_main padding gap total_main_size num_items : Z) : Z * Z :=
  let total_gap_space := container_main - 2 * padding - total_main_size in
  match m with
  | JStart => (padding, gap)
  | JEnd =>
      (container_main - padding - total_main_size - gap * (num_items - 1),
       gap)
  | JCenter =>
      (padding + (total_gap_space - gap * (num_items - 1)) / 2, gap)
  | JSpaceBetween =>
      if 1 <? num_items
      then (padding, total_gap_space / (num_items - 1))
      else (padding, gap)
  | JSpaceAround =>
      let g := total_gap_space / num_items in (padding + g / 2, g)
  | JSpaceEvenly =>
      let g := total_gap_space / (num_items + 1) in (padding + g, g)
  end.

(** The lines of a box laid out as the specification words it: every
    line starts at the cursor of the table and uses the gap of the
    table, its items are placed one after the other by the item loop of
    [render], and the next line starts below by the largest cross size of
    the line plus the configured gap. *)
Fixpoint lines_by_table (blend : PIL.Pixel -> PIL.Pixel -> PIL.Pixel)
    (self : FlexBox) (m : JustifyMode) (alignment_offset : Z)
    (lines : list (list loc)) (cross_cursor : Z) (h : Heap) : Heap :=
  match lines with
  | [] => h
  | line :: rest =>
      let max_cross :=
        match map (fun item => cross_of self (PIL.deref h item)) line with
        | [] => 0
        | x :: xs => fold_left Z.max xs x
        end in
      let total_main_size :=
        py_sum (map (fun item => main_of self (PIL.deref h item)) line) in
      let '(start, g) :=
        justify_table m (container_main self) (padding self) (gap self)
          total_main_size (Z.of_nat (length line)) in
      lines_by_table blend self m alignment_offset rest
        (cross_cursor + (max_cross + gap self))
        (snd (fold_left
                (place_item blend self cross_cursor alignment_offset
                   max_cross g)
                line (start, h)))
  end.

(** *** The padding helper, as the specification words it *)

(** The pixels added on the left, right, top and bottom edge. *)
Definition pad_edges (type : string) (n : Z) : option (Z * Z * Z * Z) :=
  if (type =? "all")%string then Some (n, n, n, n)
  else if (type =? "x")%string then Some (n, n, 0, 0)
  else if (type =? "y")%string then Some (0, 0, n, n)
  else if (type =? "left")%string then Some (n, 0, 0, 0)
  else if (type =? "right")%string then Some (0, n, 0, 0)
  else if (type =? "top")%string then Some (0, 0, n, 0)
  else if (type =? "bottom")%string then Some (0, 0, 0, n)
  else None.

(** The colour of the new space: opaque white for the symmetric ["x"] and
    ["y"], fully transparent otherwise. *)
Definition pad_fill (type : string) : PIL.Pixel :=
  if (type =? "x")%string || (type =? "y")%string
  then opaque_white else transparent.

(** ** Concrete images and boxes *)

Definition solid (w h : Z) (c : PIL.Pixel) : PIL.Image :=
  {| PIL.width := w; PIL.height := h; PIL.getpixel := fun _ _ => c |}.

Definition red : PIL.Pixel := (255, 0, 0, 255).
Definition green : PIL.Pixel := (0, 255, 0, 255).

(** A wrapping row box on a 100x100 canvas whose only child is 150 wide. *)
Definition heap_oversized : Heap :=
  [solid 100 100 transparent; solid 150 10 red].
Definition box_oversized : FlexBox :=
  fst (add_items
         (__init__ heap_oversized 0%nat 0 0 "row" "start" "start" "wrap" true)
         [ImageItem 1%nat]).

(** A column box on a canvas 50 wide and 200 high with a child 100 wide. *)
Definition heap_column : Heap :=
  [solid 50 200 transparent; solid 100 10 red].
Definition box_column : FlexBox :=
  fst (add_items
         (__init__ heap_column 0%nat 0 0 "column" "start" "start" "wrap" true)
         [ImageItem 1%nat]).

(** A column box on a canvas 200 wide and 50 high with the same child. *)
Definition heap_column_wide : Heap :=
  [solid 200 50 transparent; solid 100 10 red].
Definition box_column_wide : FlexBox :=
  fst (add_items
         (__init__ heap_column_wide 0%nat 0 0 "column" "start" "start" "wrap"
            true)
         [ImageItem 1%nat]).

(** A wrapping row box on a canvas 30 wide and 20 high with two children
    20 wide and 15 high: two lines, 30 high in all. *)
Definition heap_row_overflow : Heap :=
  [solid 30 20 transparent; solid 20 15 red; solid 20 15 green].
Definition box_row_overflow : FlexBox :=
  fst (add_items
         (__init__ heap_row_overflow 0%nat 0 0 "row" "start" "start" "wrap"
            true)
         [ImageItem 1%nat; ImageItem 2%nat]).

(** Two items 10 and 20 wide in a space-between row of width 100. *)
Definition heap_between : Heap :=
  [solid 100 50 transparent; solid 10 10 red; solid 20 10 green].
Definition box_between : FlexBox :=
  fst (add_items
         (__init__ heap_between 0%nat 0 0 "row" "space-between" "start" "wrap"
            true)
         [ImageItem 1%nat; ImageItem 2%nat]).

(** Two items 10 and 20 high in a space-between column of height 100. *)
Definition heap_between_column : Heap :=
  [solid 50 100 transparent; solid 10 10 red; solid 10 20 green].
Definition box_between_column : FlexBox :=
  fst (add_items
         (__init__ heap_between_column 0%nat 0 0 "column" "space-between"
            "start" "wrap" true)
         [ImageItem 1%nat; ImageItem 2%nat]).

(** A translucent red image and a fully transparent one, 2x2 each. *)
Definition heap_translucent : Heap :=
  [solid 2 2 (255, 0, 0, 128); solid 2 2 transparent].

(** A box without children. *)
Definition box_empty : FlexBox :=
  __init__ heap_between 0%nat 0 0 "row" "start" "start" "wrap" true.

(** A box whose direction, alignment and wrap literals are none of the
    documented ones. *)
Definition box_literals : FlexBox :=
  fst (add_items
         (__init__ heap_between 0%nat 0 0 "diagonal" "start" "middle" "maybe"
            true)
         [ImageItem 1%nat; ImageItem 2%nat]).

(** A box with a nested box: the inner canvas is object 1. *)
Definition heap_nested : Heap :=
  [solid 100 50 transparent; solid 40 20 transparent; solid 10 10 red;
   solid 20 10 green].
Definition box_inner : FlexBox :=
  fst (add_items
         (__init__ heap_nested 1%nat 0 0 "row" "start" "start" "wrap" true)
         [ImageItem 2%nat]).
Definition box_nested : FlexBox :=
  fst (add_items
         (__init__ heap_nested 0%nat 2 3 "row" "center" "end" "wrap" true)
         [BoxItem box_inner; ImageItem 3%nat]).

(** * Properties *)

(** ** Unfolding and arithmetic helpers *)

Lemma render_eq blend self h :
  render blend self h =
  if _rendered self then (self, h, Ok (image self))
  else match items self with
       | [] => (self, h, Ok (image self))
       | _ :: _ =>
           match flatten (render blend) (items self) h with
           | (items1, h1, Raise e) => (set_items self items1, h1, Raise e)
           | (items1, h1, Ok rendered_items) =>
               render_items blend (set_items self items1) rendered_items h1
           end
       end.
Proof. destruct self; reflexivity. Qed.

Lemma py_sum_snoc xs x : py_sum (xs ++ [x]) = py_sum xs + x.
Proof. unfold py_sum. rewrite fold_left_app. reflexivity. Qed.

Lemma line_extent_single self h item :
  line_extent self h [item] = main_of self (PIL.deref h item).
Proof. unfold line_extent, py_sum. simpl. lia. Qed.

Lemma line_extent_snoc self h line item :
  line <> [] ->
  line_extent self h (line ++ [item])
  = line_extent self h line + (main_of self (PIL.deref h item) + gap self).
Proof.
  intros Hne. unfold line_extent.
  destruct line as [|x line]; [congruence|].
  change ((x :: line) ++ [item]) with (x :: (line ++ [item])).
  cbv match.
  change (x :: (line ++ [item])) with ((x :: line) ++ [item]).
  rewrite map_app. simpl (map _ [item]).
  rewrite py_sum_snoc, length_app, Nat2Z.inj_add. simpl (length [item]). lia.
Qed.

(** ** Line breaking under wrap *)

Section LineBreak.
Variables (self : FlexBox) (h : Heap).
Hypothesis Hwrap : flex_wrap self = "wrap".

Let bound : Z := container_main self - 2 * padding self.

Lemma line_fits_single item : line_fits self h [item].
Proof.
  unfold line_fits.
  destruct (Z_le_gt_dec (main_of self (PIL.deref h item))
              (container_main self - 2 * padding self)).
  - left. rewrite line_extent_single. lia.
  - right. exists item. split; [reflexivity | lia].
Qed.

Lemma line_break_step_inv st item :
  wrap_inv self h st -> wrap_inv self h (line_break_step self h st item).
Proof using Hwrap.
  destruct st as [[lines cur] cm]. intros (Hne & Hcm & Hfit & Hall).
  unfold line_break_step. rewrite Hwrap. simpl String.eqb. cbv iota.
  rewrite andb_true_l.
  destruct cur as [|c cur]; [congruence|].
  destruct (Z.ltb_spec (container_main self - 2 * padding self)
              (cm + (main_of self (PIL.deref h item) + gap self)))
    as [Hlt | Hge].
  - unfold wrap_inv. repeat split.
    + discriminate.
    + symmetry. apply line_extent_single.
    + apply line_fits_single.
    + apply Forall_app. split; [assumption|].
      constructor; [|constructor]. split; [discriminate | assumption].
  - unfold wrap_inv. repeat split.
    + destruct cur; discriminate.
    + rewrite line_extent_snoc by discriminate. lia.
    + left. rewrite line_extent_snoc by discriminate. lia.
    + assumption.
Qed.

Lemma line_break_fold_inv rendered_items st :
  wrap_inv self h st ->
  wrap_inv self h (fold_left (line_break_step self h) rendered_items st).
Proof using Hwrap.
  revert st. induction rendered_items as [|item rest IH]; intros st Hst.
  - exact Hst.
  - simpl. apply IH. apply line_break_step_inv. exact Hst.
Qed.

(** When the first child fits, every line is non-empty and within the
    bound, or holds a single child that alone exceeds it. *)
Lemma line_break_wrap_fits first rest :
  main_of self (PIL.deref h first) <= bound ->
  Forall (fun l => l <> [] /\ line_fits self h l)
         (line_break self h (first :: rest)).
Proof using Hwrap.
  intros Hfirst. unfold line_break. cbn [fold_left].
  assert (Hstep : line_break_step self h ([], [], 0) first
                  = ([], [first], main_of self (PIL.deref h first))).
  { unfold line_break_step. rewrite Hwrap. simpl String.eqb.
    destruct (Z.ltb_spec (container_main self - 2 * padding self)
                (0 + (main_of self (PIL.deref h first) + 0))) as [Hlt|Hge].
    - unfold bound in Hfirst. lia.
    - simpl. f_equal. lia. }
  rewrite Hstep.
  pose proof (line_break_fold_inv rest
                ([], [first], main_of self (PIL.deref h first))) as Hinv.
  destruct (fold_left (line_break_step self h) rest
              ([], [first], main_of self (PIL.deref h first)))
    as [[lines cur] cm].
  destruct Hinv as (Hne & _ & Hfit & Hall).
  { unfold wrap_inv. repeat split.
    - discriminate.
    - symmetry. apply line_extent_single.
    - apply line_fits_single.
    - constructor. }
  destruct cur as [|c cur]; [congruence|].
  apply Forall_app. split; [assumption|].
  constructor; [|constructor]. split; [discriminate | assumption].
Qed.

Lemma line_break_fold_prefix rendered_items lines cur cm :
  exists more cur' cm',
    fold_left (line_break_step self h) rendered_items (lines, cur, cm)
    = (lines ++ more, cur', cm').
Proof.
  revert lines cur cm.
  induction rendered_items as [|item rest IH]; intros lines cur cm.
  - exists [], cur, cm. simpl. rewrite app_nil_r. reflexivity.
  - cbn [fold_left].
    assert (Hstep :
      line_break_step self h (lines, cur, cm) item
      = (lines ++ [cur], [item], main_of self (PIL.deref h item))
      \/ exists cur1 cm1,
           line_break_step self h (lines, cur, cm) item
           = (lines, cur1, cm1)).
    { unfold line_break_step.
      destruct ((flex_wrap self =? "wrap")%string
                && (container_main self - 2 * padding self
                    <? cm + (main_of self (PIL.deref h item)
                             + match cur with
                               | [] => 0
                               | _ => gap self
                               end))); eauto. }
    destruct Hstep as [-> | (cur1 & cm1 & ->)].
    + destruct (IH (lines ++ [cur]) [item]
                  (main_of self (PIL.deref h item)))
        as (more & cur' & cm' & Heq).
      exists (cur :: more), cur', cm'. rewrite Heq.
      rewrite <- app_assoc. reflexivity.
    + apply IH.
Qed.

(** When the first child alone exceeds the bound, the line list starts
    with the empty line that was current before it. *)
Lemma line_break_first_oversized first rest :
  bound < main_of self (PIL.deref h first) ->
  exists more, line_break self h (first :: rest) = [] :: more.
Proof using Hwrap.
  intros Hbig. unfold line_break. cbn [fold_left].
  assert (Hstep : line_break_step self h ([], [], 0) first
                  = ([[]], [first], main_of self (PIL.deref h first))).
  { unfold line_break_step. rewrite Hwrap. simpl String.eqb.
    destruct (Z.ltb_spec (container_main self - 2 * padding self)
                (0 + (main_of self (PIL.deref h first) + 0))) as [Hlt|Hge].
    - reflexivity.
    - unfold bound in Hbig. lia. }
  rewrite Hstep.
  destruct (line_break_fold_prefix rest [[]] [first]
              (main_of self (PIL.deref h first)))
    as (more & cur' & cm' & Heq).
  rewrite Heq. destruct cur'; simpl; eauto.
Qed.

(** ... and [render] stops at [max()] of that empty line: nothing is
    pasted and the box is not marked rendered. *)
Lemma render_items_first_oversized blend first rest :
  bound < main_of self (PIL.deref h first) ->
  render_items blend self (first :: rest) h
  = (self, h, Raise (ValueError "max() arg is an empty sequence")).
Proof using Hwrap.
  intros Hbig. unfold render_items.
  destruct (line_break_first_oversized first rest Hbig) as [more ->].
  reflexivity.
Qed.
End LineBreak.

(** ** The image heap *)

Lemma deref_lookup (h : Heap) l im : h !! l = Some im -> PIL.deref h l = im.
Proof. unfold PIL.deref. intros ->. reflexivity. Qed.

Lemma paste_length blend self im box (h : Heap) :
  length (PIL.paste blend self im box h) = length h.
Proof. unfold PIL.paste. apply length_insert. Qed.

Lemma paste_lookup_ne blend self im box (h : Heap) l :
  l <> self -> PIL.paste blend self im box h !! l = h !! l.
Proof. intros Hne. unfold PIL.paste. apply list_lookup_insert_ne. congruence. Qed.

(** A paste changes no size, not even that of its destination. *)
Lemma paste_size blend self im box (h : Heap) l :
  PIL.size (PIL.deref (PIL.paste blend self im box h) l)
  = PIL.size (PIL.deref h l).
Proof.
  unfold PIL.deref at 1. unfold PIL.paste.
  rewrite list_lookup_insert. case_decide as Hd.
  - destruct Hd as [<- _]. reflexivity.
  - reflexivity.
Qed.

Lemma paste_width blend self im box (h : Heap) l :
  PIL.width (PIL.deref (PIL.paste blend self im box h) l)
  = PIL.width (PIL.deref h l).
Proof. exact (f_equal fst (paste_size blend self im box h l)). Qed.

Lemma paste_height blend self im box (h : Heap) l :
  PIL.height (PIL.deref (PIL.paste blend self im box h) l)
  = PIL.height (PIL.deref h l).
Proof. exact (f_equal snd (paste_size blend self im box h l)). Qed.

Lemma paste_main_of blend b self im box (h : Heap) l :
  main_of b (PIL.deref (PIL.paste blend self im box h) l)
  = main_of b (PIL.deref h l).
Proof. unfold main_of. rewrite paste_width, paste_height. reflexivity. Qed.

Lemma paste_cross_of blend b self im box (h : Heap) l :
  cross_of b (PIL.deref (PIL.paste blend self im box h) l)
  = cross_of b (PIL.deref h l).
Proof. unfold cross_of. rewrite paste_width, paste_height. reflexivity. Qed.

(** ** C1: wrapping and the oversized first child *)

(** C1 (evaluation at the failing input).  A wrapping row box on a
    100x100 canvas, padding 0 and gap 0, whose only child is 150 wide: the
    child alone exceeds the bound, the line breaking yields the empty line
    followed by the line of the child, and [render] raises the
    [ValueError] of [max()] on that empty line; the heap is untouched, so
    the child is not placed, and the box is not marked rendered. *)
Theorem wrap_oversized_first_child_raises :
  flex_wrap box_oversized = "wrap"
  /\ container_main box_oversized - 2 * padding box_oversized
     < main_of box_oversized (PIL.deref heap_oversized 1%nat)
  /\ line_break box_oversized heap_oversized [1%nat] = [[]; [1%nat]]
  /\ render PIL.blend_RGBA box_oversized heap_oversized
     = (box_oversized, heap_oversized,
        Raise (ValueError "max() arg is an empty sequence")).
Proof. repeat split. Qed.

(** ** C2: growth of the canvas *)

(** The growth test reads [self.height] whatever the direction. *)
Lemma grow_not_taken blend self tm h :
  tm <= height self -> grow blend self tm h = (self, h, Ok tt).
Proof.
  intros Hle. unfold grow.
  destruct (Z.ltb_spec (height self) tm); [lia | reflexivity].
Qed.

(** C2 (evaluation at the failing input).  A column box on a canvas 50
    wide and 200 high with one child 100 wide: the total cross extent is
    100 and exceeds the cross dimension 50 of the canvas, yet [render]
    keeps the canvas object and its width of 50, since 100 does not exceed
    the height.  On a canvas 200 wide and 50 high the same child does not
    overflow the cross axis, yet the canvas is replaced by one of width
    100. *)
Theorem column_growth_tests_height :
  total_max box_column heap_column (line_break box_column heap_column [1%nat])
  = Ok 100
  /\ container_cross box_column = 50
  /\ (exists s1 h1,
        render PIL.blend_RGBA box_column heap_column = (s1, h1, Ok 0%nat)
        /\ image s1 = 0%nat /\ width s1 = 50 /\ height s1 = 200
        /\ length h1 = 2%nat
        /\ PIL.size (PIL.deref h1 0%nat) = (50, 200))
  /\ total_max box_column_wide heap_column_wide
       (line_break box_column_wide heap_column_wide [1%nat]) = Ok 100
  /\ container_cross box_column_wide = 200
  /\ (exists s1 h1,
        render PIL.blend_RGBA box_column_wide heap_column_wide
        = (s1, h1, Ok 2%nat)
        /\ image s1 = 2%nat /\ width s1 = 100 /\ height s1 = 50
        /\ PIL.size (PIL.deref h1 2%nat) = (100, 50)).
Proof.
  split; [reflexivity|]. split; [reflexivity|]. split.
  - eexists _, _. split; [vm_compute; reflexivity|]. repeat split.
  - split; [reflexivity|]. split; [reflexivity|].
    eexists _, _. split; [vm_compute; reflexivity|]. repeat split.
Qed.

(** In a row box the growth is the one described: the two lines are 30
    high on a canvas 20 high, and the canvas becomes a new object 30 wide
    and [20 + (30 - 20 + 2*0)] high that the box records. *)
Lemma row_growth_example :
  line_break box_row_overflow heap_row_overflow [1%nat; 2%nat]
  = [[1%nat]; [2%nat]]
  /\ total_max box_row_overflow heap_row_overflow [[1%nat]; [2%nat]] = Ok 30
  /\ exists s1 h1,
       render PIL.blend_RGBA box_row_overflow heap_row_overflow
       = (s1, h1, Ok 3%nat)
       /\ image s1 = 3%nat /\ width s1 = 30 /\ height s1 = 30
       /\ PIL.size (PIL.deref h1 3%nat) = (30, 30)
       /\ h1 !! 0%nat = Some (solid 30 20 transparent).
Proof.
  split; [reflexivity|]. split; [reflexivity|].
  eexists _, _. split; [vm_compute; reflexivity|]. repeat split.
Qed.

(** ** C7: [position_relative] *)

(** C7 (evaluation at the failing inputs).  With [top=0] and any
    [bottom], both specified, no error is raised: the image is pasted at
    the row computed from [bottom]; likewise with [left=0] and any
    [right]. *)
Theorem position_relative_zero_offset_accepted blend base image b r
    (h : Heap) :
  position_relative blend base image (Some 0) (Some b) None None h
  = (PIL.paste blend base image
       (0, PIL.height (PIL.deref h base) - b
           - PIL.height (PIL.deref h image)) h,
     Ok base)
  /\ position_relative blend base image None None (Some 0) (Some r) h
     = (PIL.paste blend base image
          (PIL.width (PIL.deref h base) - r
           - PIL.width (PIL.deref h image), 0) h,
        Ok base).
Proof. split; reflexivity. Qed.

(** When both offsets of an axis are non-zero the call raises before any
    paste. *)
Lemma position_relative_conflict blend base image t b left right
    (h : Heap) :
  t <> 0 -> b <> 0 ->
  position_relative blend base image (Some t) (Some b) left right h
  = (h, Raise (ValueError "Cannot set both top and bottom")).
Proof.
  intros Ht Hb. unfold position_relative, truthy.
  destruct (Z.eqb_spec t 0); [congruence|].
  destruct (Z.eqb_spec b 0); [congruence|]. reflexivity.
Qed.

(** ** C3: the justify table *)

Lemma main_cursor_and_gap_table self m total_main_size num_items :
  justify self = justify_literal m ->
  1 <= num_items ->
  main_cursor_and_gap self total_main_size num_items
  = Ok (justify_table m (container_main self) (padding self) (gap self)
          total_main_size num_items).
Proof.
  intros Hj Hn. unfold main_cursor_and_gap, justify_table, py_floordiv.
  rewrite Hj.
  destruct m; simpl justify_literal; simpl String.eqb; cbv iota;
    try reflexivity.
  - rewrite andb_true_l. destruct (Z.ltb_spec 1 num_items) as [Hlt|Hge].
    + destruct (Z.eqb_spec (num_items - 1) 0); [lia | reflexivity].
    + reflexivity.
  - destruct (Z.eqb_spec num_items 0); [lia | reflexivity].
  - destruct (Z.eqb_spec (num_items + 1) 0); [lia | reflexivity].
Qed.

(** The same instance through [render]: the two pastes are the whole
    effect of the call on the heap. *)
Lemma render_space_between_example :
  render PIL.blend_RGBA box_between heap_between
  = (set_rendered box_between true,
     PIL.paste PIL.blend_RGBA 0%nat 2%nat (80, 0)
       (PIL.paste PIL.blend_RGBA 0%nat 1%nat (0, 0) heap_between),
     Ok 0%nat).
Proof. vm_compute. reflexivity. Qed.

(** ** C4: idempotence of [render] *)

(** C4.  When [render] returns, calling it again on the state it left
    returns the same image object and changes neither the heap nor the
    box: nothing is computed or painted again.  This covers the box
    without children, which is returned as it is. *)
Theorem render_idempotent blend self (h : Heap) self1 h1 im :
  render blend self h = (self1, h1, Ok im) ->
  render blend self1 h1 = (self1, h1, Ok im).
Proof.
  intros H. rewrite render_eq in H.
  destruct (_rendered self) eqn:Hr.
  - inversion H; subst. rewrite render_eq, Hr. reflexivity.
  - destruct (items self) as [|it its] eqn:Hits.
    + inversion H; subst. rewrite render_eq, Hr, Hits. reflexivity.
    + destruct (flatten (render blend) (it :: its) h) as [[items1 h0] [ris|e]];
        [|discriminate].
      unfold render_items in H.
      destruct (total_max _ _ _); [|discriminate].
      destruct (grow _ _ _ _) as [[s2 h2] [u|e]]; [|discriminate].
      destruct (render_lines _ _ _ _ _ _) as [h3 [u'|e]]; [|discriminate].
      inversion H; subst. rewrite render_eq. reflexivity.
Qed.

Lemma render_idempotent_witness :
  render PIL.blend_RGBA
    (fst (fst (render PIL.blend_RGBA box_nested heap_nested)))
    (snd (fst (render PIL.blend_RGBA box_nested heap_nested)))
  = (fst (fst (render PIL.blend_RGBA box_nested heap_nested)),
     snd (fst (render PIL.blend_RGBA box_nested heap_nested)),
     Ok 0%nat).
Proof.
  apply (render_idempotent PIL.blend_RGBA box_nested heap_nested).
  vm_compute. reflexivity.
Defined.

(** ** C5: [add_items] after [render] *)

(** C5 (counterexample).  [render] on a box without children returns the
    canvas and leaves the box unmarked; the following [add_items] is
    accepted and changes the item list. *)
Lemma add_items_after_empty_render_accepted :
  render PIL.blend_RGBA box_empty heap_between
  = (box_empty, heap_between, Ok 0%nat)
  /\ add_items box_empty [ImageItem 1%nat]
     = (set_items box_empty [ImageItem 1%nat], Ok tt)
  /\ items (set_items box_empty [ImageItem 1%nat]) <> items box_empty.
Proof. repeat split. discriminate. Qed.

(** C5 (amended).  After a [render] that returned on a box with at least
    one child, [add_items] raises the ordering error and leaves the box as
    it was.  A box that was not yet rendered and has no children is
    returned unmarked by [render], and [add_items] then appends to it. *)
Theorem add_items_after_render blend self (h : Heap) self1 h1 im new_items :
  render blend self h = (self1, h1, Ok im) ->
  (items self <> [] ->
   add_items self1 new_items
   = (self1, Raise (ValueError "Cannot add items after rendering")))
  /\ (items self = [] -> _rendered self = false ->
      self1 = self
      /\ add_items self1 new_items = (set_items self new_items, Ok tt)).
Proof.
  intros H. rewrite render_eq in H. split.
  - intros Hne. unfold add_items.
    destruct (_rendered self) eqn:Hr.
    + inversion H; subst. rewrite Hr. reflexivity.
    + destruct (items self) as [|it its] eqn:Hits; [congruence|].
      destruct (flatten (render blend) (it :: its) h) as [[items1 h0] [ris|e]];
        [|discriminate].
      unfold render_items in H.
      destruct (total_max _ _ _); [|discriminate].
      destruct (grow _ _ _ _) as [[s2 h2] [u|e]]; [|discriminate].
      destruct (render_lines _ _ _ _ _ _) as [h3 [u'|e]]; [|discriminate].
      inversion H; subst. reflexivity.
  - intros Hits Hr. rewrite Hr, Hits in H. inversion H; subst.
    split; [reflexivity|]. unfold add_items. rewrite Hr, Hits. reflexivity.
Qed.

Lemma add_items_after_render_witness :
  add_items (fst (fst (render PIL.blend_RGBA box_between heap_between)))
            [ImageItem 1%nat]
  = (fst (fst (render PIL.blend_RGBA box_between heap_between)),
     Raise (ValueError "Cannot add items after rendering")).
Proof.
  refine (proj1 (add_items_after_render PIL.blend_RGBA box_between
                   heap_between _ _ 0%nat [ImageItem 1%nat] _) _).
  - vm_compute. reflexivity.
  - discriminate.
Defined.

(** ** Boxes that answer every test alike render alike *)

Lemma fold_left_pointwise {A B : Type} (f g : A -> B -> A) (l : list B) :
  (forall a b, f a b = g a b) ->
  forall a, fold_left f l a = fold_left g l a.
Proof.
  intros Hfg. induction l as [|x l IH]; intros a; simpl.
  - reflexivity.
  - rewrite Hfg. apply IH.
Qed.

Lemma box_ext (a b : FlexBox) :
  same_state a b -> allow_resize a = allow_resize b ->
  direction a = direction b -> justify a = justify b ->
  align_items a = align_items b -> flex_wrap a = flex_wrap b ->
  a = b.
Proof.
  destruct a, b. unfold same_state. simpl.
  intros (? & ? & ? & ? & ? & ? & ? & ?) ? ? ? ? ?. congruence.
Qed.

Section Equiv.
Variable blend : PIL.Pixel -> PIL.Pixel -> PIL.Pixel.
Variables a b : FlexBox.
Hypothesis E : layout_equiv a b.

Lemma equiv_is_row : is_row a = is_row b.
Proof using E. unfold is_row. destruct E as [_ [H _]]. exact H. Qed.

Lemma equiv_main_of im : main_of a im = main_of b im.
Proof using E. unfold main_of. rewrite equiv_is_row. reflexivity. Qed.

Lemma equiv_cross_of im : cross_of a im = cross_of b im.
Proof using E. unfold cross_of. rewrite equiv_is_row. reflexivity. Qed.

Lemma equiv_container_main : container_main a = container_main b.
Proof using E.
  unfold container_main. rewrite equiv_is_row.
  destruct E as [(_ & _ & -> & -> & _) _]. reflexivity.
Qed.

Lemma equiv_container_cross : container_cross a = container_cross b.
Proof using E.
  unfold container_cross. rewrite equiv_is_row.
  destruct E as [(_ & _ & -> & -> & _) _]. reflexivity.
Qed.

Lemma equiv_line_break h its : line_break a h its = line_break b h its.
Proof using E.
  unfold line_break.
  rewrite (fold_left_pointwise (line_break_step a h) (line_break_step b h));
    [reflexivity|].
  intros [[lines cur] cm] item. unfold line_break_step.
  rewrite equiv_main_of, equiv_container_main.
  destruct E as [(_ & _ & _ & _ & _ & -> & -> & _) (_ & -> & _)].
  reflexivity.
Qed.

Lemma equiv_sum_max_cross h lines acc :
  sum_max_cross a h lines acc = sum_max_cross b h lines acc.
Proof using E.
  revert acc. induction lines as [|line rest IH]; intros acc; simpl.
  - reflexivity.
  - rewrite (map_ext _ (fun item => cross_of b (PIL.deref h item)))
      by (intros; apply equiv_cross_of).
    destruct (py_max _); [|reflexivity].
    destruct E as [(_ & _ & _ & _ & _ & _ & -> & _) _]. apply IH.
Qed.

Lemma equiv_main_cursor_and_gap tms n :
  main_cursor_and_gap a tms n = main_cursor_and_gap b tms n.
Proof using E.
  destruct E as [(_ & _ & Hw & Hh & _ & Hp & Hg & _) (Hrow & _ & Hj & _)].
  transitivity (main_cursor_and_gap (set_justify a (justify b)) tms n).
  - rewrite <- (Hj a tms n). destruct a; reflexivity.
  - unfold main_cursor_and_gap, container_main, is_row. simpl.
    rewrite Hrow, Hw, Hh, Hp, Hg. reflexivity.
Qed.

Lemma equiv_cross_position cc ao mx ic :
  cross_position a cc ao mx ic = cross_position b cc ao mx ic.
Proof using E.
  unfold cross_position.
  destruct E as [_ (_ & _ & _ & -> & ->)].
  reflexivity.
Qed.

Lemma equiv_place_item cc ao mx g st item :
  place_item blend a cc ao mx g st item
  = place_item blend b cc ao mx g st item.
Proof using E.
  destruct st as [mc h]. unfold place_item.
  rewrite !equiv_main_of, !equiv_cross_of, equiv_cross_position,
    equiv_is_row.
  destruct E as [(-> & _) _]. reflexivity.
Qed.

Lemma equiv_render_lines ao lines cc h :
  render_lines blend a ao lines cc h = render_lines blend b ao lines cc h.
Proof using E.
  revert cc h. induction lines as [|line rest IH]; intros cc h; simpl.
  - reflexivity.
  - rewrite (map_ext _ (fun item => cross_of b (PIL.deref h item)))
      by (intros; apply equiv_cross_of).
    destruct (py_max _) as [mx|e]; [|reflexivity].
    rewrite (map_ext (fun item => main_of a (PIL.deref h item))
               (fun item => main_of b (PIL.deref h item)))
      by (intros; apply equiv_main_of).
    rewrite equiv_main_cursor_and_gap.
    destruct (main_cursor_and_gap b _ _) as [[mc g]|e]; [|reflexivity].
    rewrite (fold_left_pointwise (place_item blend a cc ao mx g)
               (place_item blend b cc ao mx g))
      by (intros; apply equiv_place_item).
    destruct (fold_left _ line (mc, h)) as [mc1 h1].
    destruct E as [(_ & _ & _ & _ & _ & _ & -> & _) _]. apply IH.
Qed.
End Equiv.

Lemma layout_equiv_set_items a b its :
  layout_equiv a b -> layout_equiv (set_items a its) (set_items b its).
Proof.
  intros [(? & ? & ? & ? & ? & ? & ? & ?) T].
  split; [|exact T]. unfold same_state. simpl. tauto.
Qed.

Lemma layout_equiv_set_rendered a b r :
  layout_equiv a b -> layout_equiv (set_rendered a r) (set_rendered b r).
Proof.
  intros [(? & ? & ? & ? & ? & ? & ? & ?) T].
  split; [|exact T]. unfold same_state. simpl. tauto.
Qed.

Lemma layout_equiv_grown a b im wh :
  layout_equiv a b ->
  layout_equiv (set_width_height (set_image a im) wh)
               (set_width_height (set_image b im) wh).
Proof.
  intros [(? & ? & ? & ? & ? & ? & ? & ?) T].
  split; [|exact T]. unfold same_state. simpl. tauto.
Qed.

Ltac outcome :=
  unfold same_outcome; cbn [fst snd];
  split; [reflexivity | split; [reflexivity|]].

Lemma equiv_grow blend a b tm h :
  layout_equiv a b ->
  same_outcome (grow blend a tm h) (grow blend b tm h).
Proof.
  intros E. unfold grow.
  rewrite (equiv_container_cross a b E), (equiv_is_row a b E).
  pose proof E as [(Hi & _ & _ & Hh & _ & Hp & _) _].
  rewrite Hi, Hh, Hp.
  destruct (height b <? tm); [|outcome; exact E].
  destruct (add_padding _ _ _ _ _) as [h1 [im|e]].
  - outcome. apply layout_equiv_grown, E.
  - outcome. exact E.
Qed.

Lemma equiv_render_items blend a b ris h :
  layout_equiv a b ->
  same_outcome (render_items blend a ris h) (render_items blend b ris h).
Proof.
  intros E. unfold render_items, total_max.
  rewrite (equiv_line_break a b E), (equiv_sum_max_cross a b E).
  destruct (sum_max_cross b h _ 0) as [tm|e]; [|outcome; exact E].
  destruct (equiv_grow blend a b tm h E) as (Hh & Hr & E1).
  destruct (grow blend a tm h) as [[a1 ha] ra].
  destruct (grow blend b tm h) as [[b1 hb] rb].
  cbn [fst snd] in Hh, Hr, E1. subst hb rb.
  destruct ra as [u|e]; [|outcome; exact E1].
  rewrite (equiv_render_lines blend a1 b1 E1),
    (equiv_container_cross a1 b1 E1).
  pose proof E1 as [(Hi & _ & _ & _ & _ & Hp & _) _]. rewrite Hp.
  destruct (render_lines _ _ _ _ _ _) as [h2 [u'|e]].
  - rewrite Hi. outcome. apply layout_equiv_set_rendered, E1.
  - outcome. exact E1.
Qed.

Lemma equiv_render blend a b h :
  layout_equiv a b ->
  same_outcome (render blend a h) (render blend b h).
Proof.
  intros E. rewrite !render_eq.
  pose proof E as [(Hi & _ & _ & _ & Hits & _ & _ & Hr) _].
  rewrite Hi, Hits, Hr.
  destruct (_rendered b); [outcome; exact E|].
  destruct (items b) as [|it its] eqn:Hb; [outcome; exact E|].
  destruct (flatten (render blend) (it :: its) h) as [[items1 h1] [ris|e]].
  - apply equiv_render_items. apply layout_equiv_set_items, E.
  - outcome. apply layout_equiv_set_items, E.
Qed.

(** [render] assigns to none of the configuration fields. *)
Lemma grow_config blend self tm h :
  config (fst (fst (grow blend self tm h))) = config self.
Proof.
  unfold grow. destruct (height self <? tm); [|reflexivity].
  destruct (add_padding _ _ _ _ _) as [h1 [im|e]]; reflexivity.
Qed.

Lemma render_items_config blend self ris h :
  config (fst (fst (render_items blend self ris h))) = config self.
Proof.
  unfold render_items.
  destruct (total_max _ _ _) as [tm|e]; [|reflexivity].
  pose proof (grow_config blend self tm h) as Hg.
  destruct (grow blend self tm h) as [[s1 h1] [u|e]]; [|exact Hg].
  destruct (render_lines _ _ _ _ _ _) as [h2 [u'|e]]; exact Hg.
Qed.

Lemma render_config blend self h :
  config (fst (fst (render blend self h))) = config self.
Proof.
  rewrite render_eq.
  destruct (_rendered self); [reflexivity|].
  destruct (items self) as [|it its]; [reflexivity|].
  destruct (flatten (render blend) (it :: its) h) as [[items1 h1] [ris|e]].
  - rewrite render_items_config. reflexivity.
  - reflexivity.
Qed.

Lemma equiv_render_items_main blend a b ris h :
  layout_equiv a b ->
  same_outcome (MainPy.render_items blend a ris h)
               (MainPy.render_items blend b ris h).
Proof.
  intros E. unfold MainPy.render_items, total_max.
  rewrite (equiv_line_break a b E), (equiv_sum_max_cross a b E).
  destruct (sum_max_cross b h _ 0) as [tm|e]; [|outcome; exact E].
  rewrite (equiv_render_lines blend a b E), (equiv_container_cross a b E).
  pose proof E as [(Hi & _ & _ & _ & _ & Hp & _) _]. rewrite Hp.
  destruct (render_lines _ _ _ _ _ _) as [h2 [u'|e]].
  - rewrite Hi. outcome. apply layout_equiv_set_rendered, E.
  - outcome. exact E.
Qed.

Lemma render_main_eq blend self h :
  MainPy.render blend self h =
  if _rendered self then (self, h, Ok (image self))
  else match items self with
       | [] => (self, h, Ok (image self))
       | _ :: _ =>
           match flatten (MainPy.render blend) (items self) h with
           | (items1, h1, Raise e) => (set_items self items1, h1, Raise e)
           | (items1, h1, Ok rendered_items) =>
               MainPy.render_items blend (set_items self items1)
                 rendered_items h1
           end
       end.
Proof. destruct self; reflexivity. Qed.

Lemma equiv_render_main blend a b h :
  layout_equiv a b ->
  same_outcome (MainPy.render blend a h) (MainPy.render blend b h).
Proof.
  intros E. rewrite !render_main_eq.
  pose proof E as [(Hi & _ & _ & _ & Hits & _ & _ & Hr) _].
  rewrite Hi, Hits, Hr.
  destruct (_rendered b); [outcome; exact E|].
  destruct (items b) as [|it its] eqn:Hb; [outcome; exact E|].
  destruct (flatten (MainPy.render blend) (it :: its) h)
    as [[items1 h1] [ris|e]].
  - apply equiv_render_items_main. apply layout_equiv_set_items, E.
  - outcome. apply layout_equiv_set_items, E.
Qed.

Lemma render_main_config blend self h :
  config (fst (fst (MainPy.render blend self h))) = config self.
Proof.
  rewrite render_main_eq.
  destruct (_rendered self); [reflexivity|].
  destruct (items self) as [|it its]; [reflexivity|].
  destruct (flatten (MainPy.render blend) (it :: its) h)
    as [[items1 h1] [ris|e]]; [|reflexivity].
  unfold MainPy.render_items.
  destruct (total_max _ _ _) as [tm|e]; [|reflexivity].
  destruct (render_lines _ _ _ _ _ _) as [h2 [u'|e]]; reflexivity.
Qed.

(** Two calls with the same outcome whose boxes keep their configuration:
    the second final box is the first one with the configuration of the
    second box. *)
Lemma outcome_transport (x y : FlexBox * Heap * Res loc) (a b : FlexBox)
    (f : FlexBox -> FlexBox) :
  same_outcome x y ->
  config (fst (fst x)) = config a ->
  config (fst (fst y)) = config b ->
  (forall s, same_state (f s) s) ->
  (forall s, config s = config a -> config (f s) = config b) ->
  y = let '(s, h1, r) := x in (f s, h1, r).
Proof.
  destruct x as [[s1 h1] r1], y as [[s2 h2] r2].
  unfold same_outcome. cbn [fst snd].
  intros (Hh & Hr & [Hs _]) Ha Hb Hf Hc. subst h2 r2.
  f_equal. f_equal.
  specialize (Hf s1). specialize (Hc s1 Ha).
  rewrite <- Hc in Hb. unfold config in Hb.
  injection Hb as ? ? ? ? ? ? ?.
  apply box_ext; try congruence.
  unfold same_state in *. intuition congruence.
Qed.

Lemma same_state_refl s : same_state s s.
Proof. unfold same_state. tauto. Qed.

Lemma eqb_false_of_neq (x y : string) : x <> y -> (x =? y)%string = false.
Proof. apply String.eqb_neq. Qed.

(** ** C10: [allow_resize] *)

Lemma justify_alike_refl j : justify_alike j j.
Proof. intros s tms n. reflexivity. Qed.

Lemma layout_equiv_allow_resize self v :
  layout_equiv self (set_allow_resize self v).
Proof.
  split; [unfold same_state; simpl; tauto|].
  unfold same_tests. simpl. auto 10 using justify_alike_refl.
Qed.

(** C10.  Two boxes built from the same canvas, configuration and
    children with opposite [allow_resize], rendered in the same heap: the
    same image is returned (or the same exception raised), the heaps
    after the call are the same, and the final boxes differ in the stored
    flag only.  The same holds for [render] of [main.py]. *)
Theorem allow_resize_ignored blend (h : Heap) image padding gap direction
    justify align_items flex_wrap (children : list Item) (h0 : Heap) :
  let box v :=
    fst (add_items
           (__init__ h image padding gap direction justify align_items
              flex_wrap v)
           children) in
  render blend (box false) h0
  = (let '(s, h1, r) := render blend (box true) h0 in
     (set_allow_resize s false, h1, r))
  /\ MainPy.render blend (box false) h0
     = (let '(s, h1, r) := MainPy.render blend (box true) h0 in
        (set_allow_resize s false, h1, r)).
Proof.
  intros box.
  assert (Hbox : box false = set_allow_resize (box true) false)
    by reflexivity.
  rewrite Hbox. split.
  - apply (outcome_transport _ _ (box true)
             (set_allow_resize (box true) false)
             (fun s => set_allow_resize s false)).
    + apply equiv_render, layout_equiv_allow_resize.
    + apply render_config.
    + apply render_config.
    + intros s. unfold same_state. simpl. tauto.
    + intros s Hs. unfold config in *. simpl.
      injection Hs as ? ? ? ? ? ? ?. congruence.
  - apply (outcome_transport _ _ (box true)
             (set_allow_resize (box true) false)
             (fun s => set_allow_resize s false)).
    + apply equiv_render_main, layout_equiv_allow_resize.
    + apply render_main_config.
    + apply render_main_config.
    + intros s. unfold same_state. simpl. tauto.
    + intros s Hs. unfold config in *. simpl.
      injection Hs as ? ? ? ? ? ? ?. congruence.
Qed.

(** ** C6: configuration literals outside the documented ones *)

Lemma add_padding_invalid_type blend image n type (h : Heap) :
  ~ In type ["all"; "left"; "right"; "top"; "bottom"; "x"; "y"] ->
  add_padding blend image n type h
  = (h, Raise (ValueError ("Invalid type: " ++ type)%string)).
Proof.
  intros Hnot. unfold add_padding.
  rewrite !eqb_false_of_neq; [reflexivity | ..];
    intros ->; apply Hnot; simpl; tauto.
Qed.

Lemma justify_alike_unrecognized j :
  ~ In j ["start"; "end"; "center"; "space-between"; "space-around";
          "space-evenly"] ->
  justify_alike "start" j.
Proof.
  intros Hnot s tms n. unfold main_cursor_and_gap. simpl justify.
  rewrite !(eqb_false_of_neq j);
    try (intros ->; apply Hnot; simpl; tauto).
  reflexivity.
Qed.

Ltac transport_setter E v0 :=
  match goal with
  | |- ?rend ?blend (?set ?self ?v) ?h = _ =>
      apply (outcome_transport _ _ (set self v0) (set self v)
               (fun s => set s v));
      [ apply E
      | first [apply render_config | apply render_main_config]
      | first [apply render_config | apply render_main_config]
      | intros s; unfold same_state; simpl; tauto
      | let Hs := fresh in
        intros s Hs; unfold config in *; simpl;
        injection Hs as ? ? ? ? ? ? ?; congruence ]
  end.

Lemma render_set_justify blend self (h : Heap) j :
  ~ In j ["start"; "end"; "center"; "space-between"; "space-around";
          "space-evenly"] ->
  render blend (set_justify self j) h
  = (let '(s, h1, r) := render blend (set_justify self "start") h in
     (set_justify s j, h1, r)).
Proof.
  intros Hnot. transport_setter equiv_render "start".
  split; [unfold same_state; simpl; tauto|].
  unfold same_tests. simpl. auto 10 using justify_alike_unrecognized.
Qed.

Lemma render_set_align_items blend self (h : Heap) al :
  ~ In al ["start"; "end"; "center"] ->
  render blend (set_align_items self al) h
  = (let '(s, h1, r) := render blend (set_align_items self "start") h in
     (set_align_items s al, h1, r)).
Proof.
  intros Hnot. transport_setter equiv_render "start".
  split; [unfold same_state; simpl; tauto|].
  unfold same_tests. simpl align_items.
  rewrite !(eqb_false_of_neq al);
    try (intros ->; apply Hnot; simpl; tauto).
  simpl. auto 10 using justify_alike_refl.
Qed.

Lemma render_set_direction blend self (h : Heap) d :
  ~ In d ["row"; "column"] ->
  render blend (set_direction self d) h
  = (let '(s, h1, r) := render blend (set_direction self "column") h in
     (set_direction s d, h1, r)).
Proof.
  intros Hnot. transport_setter equiv_render "column".
  split; [unfold same_state; simpl; tauto|].
  unfold same_tests. simpl direction.
  rewrite !(eqb_false_of_neq d);
    try (intros ->; apply Hnot; simpl; tauto).
  simpl. auto 10 using justify_alike_refl.
Qed.

Lemma render_set_flex_wrap blend self (h : Heap) w :
  ~ In w ["nowrap"; "wrap"] ->
  render blend (set_flex_wrap self w) h
  = (let '(s, h1, r) := render blend (set_flex_wrap self "nowrap") h in
     (set_flex_wrap s w, h1, r)).
Proof.
  intros Hnot. transport_setter equiv_render "nowrap".
  split; [unfold same_state; simpl; tauto|].
  unfold same_tests. simpl flex_wrap.
  rewrite !(eqb_false_of_neq w);
    try (intros ->; apply Hnot; simpl; tauto).
  simpl. auto 10 using justify_alike_refl.
Qed.

(** C6 (counterexample).  A box built with the direction ["diagonal"],
    the alignment ["middle"] and the wrap mode ["maybe"] is rendered
    without any error. *)
Lemma unrecognized_literals_accepted :
  direction box_literals = "diagonal"
  /\ align_items box_literals = "middle"
  /\ flex_wrap box_literals = "maybe"
  /\ exists s h1,
       render PIL.blend_RGBA box_literals heap_between = (s, h1, Ok 0%nat)
       /\ _rendered s = true.
Proof.
  repeat split. eexists _, _. split; [vm_compute; reflexivity|].
  reflexivity.
Qed.

(** C6 (amended).  Only the padding helper rejects a literal it does not
    know, with a [ValueError] that names it and before anything is
    created.  [render] takes an unknown justify literal as ["start"], an
    unknown alignment as ["start"], an unknown direction as ["column"]
    and an unknown wrap mode as ["nowrap"]: same result, same heap, and
    the same final box but for the literal itself. *)
Theorem unrecognized_literals blend self (h : Heap) image n type j al d w :
  ~ In type ["all"; "left"; "right"; "top"; "bottom"; "x"; "y"] ->
  ~ In j ["start"; "end"; "center"; "space-between"; "space-around";
          "space-evenly"] ->
  ~ In al ["start"; "end"; "center"] ->
  ~ In d ["row"; "column"] ->
  ~ In w ["nowrap"; "wrap"] ->
  add_padding blend image n type h
  = (h, Raise (ValueError ("Invalid type: " ++ type)%string))
  /\ render blend (set_justify self j) h
     = (let '(s, h1, r) := render blend (set_justify self "start") h in
        (set_justify s j, h1, r))
  /\ render blend (set_align_items self al) h
     = (let '(s, h1, r) := render blend (set_align_items self "start") h in
        (set_align_items s al, h1, r))
  /\ render blend (set_direction self d) h
     = (let '(s, h1, r) := render blend (set_direction self "column") h in
        (set_direction s d, h1, r))
  /\ render blend (set_flex_wrap self w) h
     = (let '(s, h1, r) := render blend (set_flex_wrap self "nowrap") h in
        (set_flex_wrap s w, h1, r)).
Proof.
  intros Ht Hj Hal Hd Hw.
  split; [apply add_padding_invalid_type, Ht|].
  split; [apply render_set_justify, Hj|].
  split; [apply render_set_align_items, Hal|].
  split; [apply render_set_direction, Hd|].
  apply render_set_flex_wrap, Hw.
Qed.

Lemma string_not_in (x : string) (l : list string) :
  forallb (fun y => negb (x =? y)%string) l = true -> ~ In x l.
Proof.
  intros H Hin. rewrite forallb_forall in H. specialize (H x Hin).
  rewrite String.eqb_refl in H. discriminate.
Qed.

Lemma unrecognized_literals_witness :
  add_padding PIL.blend_RGBA 1%nat 5 "diagonal" heap_between
  = (heap_between, Raise (ValueError "Invalid type: diagonal"))
  /\ render PIL.blend_RGBA (set_justify box_between "stretch") heap_between
     = (let '(s, h1, r) :=
          render PIL.blend_RGBA (set_justify box_between "start")
            heap_between in
        (set_justify s "stretch", h1, r))
  /\ render PIL.blend_RGBA (set_align_items box_between "middle")
       heap_between
     = (let '(s, h1, r) :=
          render PIL.blend_RGBA (set_align_items box_between "start")
            heap_between in
        (set_align_items s "middle", h1, r))
  /\ render PIL.blend_RGBA (set_direction box_between "diagonal")
       heap_between
     = (let '(s, h1, r) :=
          render PIL.blend_RGBA (set_direction box_between "column")
            heap_between in
        (set_direction s "diagonal", h1, r))
  /\ render PIL.blend_RGBA (set_flex_wrap box_between "maybe") heap_between
     = (let '(s, h1, r) :=
          render PIL.blend_RGBA (set_flex_wrap box_between "nowrap")
            heap_between in
        (set_flex_wrap s "maybe", h1, r)).
Proof.
  apply (unrecognized_literals PIL.blend_RGBA box_between heap_between
           1%nat 5 "diagonal" "stretch" "middle" "diagonal" "maybe");
    apply string_not_in; reflexivity.
Defined.

(** ** C9: [add_padding] *)

Lemma covers_spec (im : PIL.Image) l t x y :
  PIL.covers im (l, t) x y = true
  <-> (l <= x < l + PIL.width im /\ t <= y < t + PIL.height im).
Proof.
  unfold PIL.covers. cbn [fst snd].
  rewrite !andb_true_iff, !Z.leb_le, !Z.ltb_lt. lia.
Qed.

Lemma new_and_paste_spec blend (h : Heap) image im sz fill at_ :
  h !! image = Some im ->
  0 <= fst sz -> 0 <= snd sz ->
  new_and_paste blend image sz fill at_ h
  = (h ++ [PIL.pasted blend (solid (fst sz) (snd sz) fill) im at_],
     Ok (length h)).
Proof.
  intros Him Hw Hh. unfold new_and_paste, PIL.new.
  destruct (Z.ltb_spec (fst sz) 0); [lia|].
  destruct (Z.ltb_spec (snd sz) 0); [lia|].
  cbn [orb]. unfold PIL.paste. f_equal.
  rewrite (deref_lookup _ (length h) (solid (fst sz) (snd sz) fill))
    by (apply list_lookup_middle; reflexivity).
  rewrite (deref_lookup _ image im) by (apply lookup_app_l_Some, Him).
  rewrite insert_app_r_alt by reflexivity.
  rewrite Nat.sub_diag. reflexivity.
Qed.

Lemma pad_edges_cases type n l r t b :
  pad_edges type n = Some (l, r, t, b) ->
  (type = "all" /\ (l, r, t, b) = (n, n, n, n))
  \/ (type = "x" /\ (l, r, t, b) = (n, n, 0, 0))
  \/ (type = "y" /\ (l, r, t, b) = (0, 0, n, n))
  \/ (type = "left" /\ (l, r, t, b) = (n, 0, 0, 0))
  \/ (type = "right" /\ (l, r, t, b) = (0, n, 0, 0))
  \/ (type = "top" /\ (l, r, t, b) = (0, 0, n, 0))
  \/ (type = "bottom" /\ (l, r, t, b) = (0, 0, 0, n)).
Proof.
  unfold pad_edges.
  repeat match goal with
         | |- context [(type =? ?s)%string] =>
             destruct (String.eqb_spec type s);
             [intros [= <- <- <- <-]; tauto|]
         end.
  discriminate.
Qed.

Ltac pad_cases H :=
  let Ht := fresh "Ht" in
  let He := fresh "He" in
  destruct H as [H|[H|[H|[H|[H|[H|H]]]]]];
  destruct H as [Ht He]; injection He as -> -> -> ->.

Lemma solid_eq w1 h1 w2 h2 c :
  w1 = w2 -> h1 = h2 -> solid w1 h1 c = solid w2 h2 c.
Proof. intros -> ->. reflexivity. Qed.

Lemma add_padding_new_image blend (h : Heap) image im n type l r t b :
  h !! image = Some im ->
  0 <= n -> 0 <= PIL.width im -> 0 <= PIL.height im ->
  pad_edges type n = Some (l, r, t, b) ->
  add_padding blend image n type h
  = (h ++ [PIL.pasted blend
             (solid (l + PIL.width im + r) (t + PIL.height im + b)
                (pad_fill type))
             im (l, t)],
     Ok (length h)).
Proof.
  intros Him Hn Hw Hh Hedges.
  assert (Hcases := pad_edges_cases _ _ _ _ _ _ Hedges).
  unfold add_padding. rewrite (deref_lookup h image im Him).
  clear Hedges. pad_cases Hcases; subst type;
    cbn [String.eqb Ascii.eqb Bool.eqb];
    rewrite (new_and_paste_spec blend h image im _ _ _ Him)
      by (cbn [fst snd]; lia);
    cbn [fst snd];
    match goal with
    | |- (_ ++ [PIL.pasted _ (solid ?a ?b ?c) _ _], _)
         = (_ ++ [PIL.pasted _ (solid ?a' ?b' ?c') _ _], _) =>
        replace (solid a b c) with (solid a' b' c')
          by (apply solid_eq; lia)
    end;
    reflexivity.
Qed.

Lemma BLEND_opaque d c : 0 <= c <= 255 -> PIL.BLEND 255 d c = c.
Proof.
  intros Hc. unfold PIL.BLEND, PIL.DIV255. rewrite !Z.shiftr_div_pow2 by lia.
  change (2 ^ 8) with 256.
  replace (d * (255 - 255) + c * 255 + 128) with (c * 255 + 128) by lia.
  assert (H1 : (c * 255 + 128) / 256 = c - 1 \/ (c * 255 + 128) / 256 = c).
  { assert (Hq := Z.div_mod (c * 255 + 128) 256 ltac:(lia)).
    assert (Hm := Z.mod_pos_bound (c * 255 + 128) 256 ltac:(lia)). lia. }
  assert (Hq := Z.div_mod ((c * 255 + 128) / 256 + (c * 255 + 128)) 256
                  ltac:(lia)).
  assert (Hm := Z.mod_pos_bound ((c * 255 + 128) / 256 + (c * 255 + 128))
                  256 ltac:(lia)).
  assert (Hq1 := Z.div_mod (c * 255 + 128) 256 ltac:(lia)).
  assert (Hm1 := Z.mod_pos_bound (c * 255 + 128) 256 ltac:(lia)).
  lia.
Qed.

(** Pillow's compositing copies a fully opaque source pixel as it is. *)
Lemma blend_RGBA_opaque d s :
  valid_pixel s -> alpha s = 255 -> PIL.blend_RGBA d s = s.
Proof.
  destruct d as [[[r0 g0] b0] a0], s as [[[r g] b] a].
  unfold valid_pixel, alpha. cbn [snd]. intros (Hr & Hg & Hb & Ha) ->.
  unfold PIL.blend_RGBA. rewrite !BLEND_opaque by lia. reflexivity.
Qed.

(** C9 (counterexample).  With Pillow's compositing the original content
    is not preserved where it is translucent: padding a red image of
    alpha 128 by one pixel on all sides gives at (1, 1) a darker and more
    transparent pixel, and padding a fully transparent image with ["x"]
    gives an opaque white pixel where the original was.  A padding that
    makes the size negative returns no image at all. *)
Lemma add_padding_alters_translucent_pixels :
  PIL.getpixel (PIL.deref heap_translucent 0%nat) 0 0 = (255, 0, 0, 128)
  /\ (exists h1 new_image,
        add_padding PIL.blend_RGBA 0%nat 1 "all" heap_translucent
        = (h1, Ok new_image)
        /\ PIL.getpixel (PIL.deref h1 new_image) 1 1 = (128, 0, 0, 64))
  /\ PIL.getpixel (PIL.deref heap_translucent 1%nat) 0 0 = (0, 0, 0, 0)
  /\ (exists h1 new_image,
        add_padding PIL.blend_RGBA 1%nat 1 "x" heap_translucent
        = (h1, Ok new_image)
        /\ PIL.getpixel (PIL.deref h1 new_image) 1 0
           = (255, 255, 255, 255))
  /\ add_padding PIL.blend_RGBA 0%nat (-2) "all" heap_translucent
     = (heap_translucent,
        Raise (ValueError "Width and height must be >= 0")).
Proof.
  split; [reflexivity|]. split.
  { eexists _, _. split; [vm_compute; reflexivity | reflexivity]. }
  split; [reflexivity|]. split.
  { eexists _, _. split; [vm_compute; reflexivity | reflexivity]. }
  reflexivity.
Qed.

(** C9 (amended).  For a padding [n >= 0], a well-formed input image and
    one of the seven edge keywords, [add_padding] returns a new image
    object: the heap is the old heap, untouched (the input image
    included), with the new image appended.  The new image is larger by
    the edges of the keyword ([n] on one edge, or [n] on both edges of an
    axis, or on all four).  The new space holds the fill of the keyword:
    fully transparent, but opaque white for ["x"] and ["y"].  Where the
    original lies, at the offset of the left and top edge, every pixel is
    the original pixel composited over that fill; with a compositing
    that copies opaque pixels, as Pillow's does, a fully opaque original
    pixel is preserved exactly. *)
Theorem add_padding_spec blend (h : Heap) image im n type l r t b :
  (forall d s, valid_pixel s -> alpha s = 255 -> blend d s = s) ->
  h !! image = Some im ->
  0 <= n -> 0 <= PIL.width im -> 0 <= PIL.height im ->
  pad_edges type n = Some (l, r, t, b) ->
  exists new_image,
    add_padding blend image n type h = (h ++ [new_image], Ok (length h))
    /\ (h ++ [new_image]) !! image = Some im
    /\ PIL.width new_image = l + PIL.width im + r
    /\ PIL.height new_image = t + PIL.height im + b
    /\ (forall x y,
          l <= x < l + PIL.width im -> t <= y < t + PIL.height im ->
          PIL.getpixel new_image x y
          = blend (pad_fill type) (PIL.getpixel im (x - l) (y - t)))
    /\ (forall x y,
          l <= x < l + PIL.width im -> t <= y < t + PIL.height im ->
          valid_pixel (PIL.getpixel im (x - l) (y - t)) ->
          alpha (PIL.getpixel im (x - l) (y - t)) = 255 ->
          PIL.getpixel new_image x y = PIL.getpixel im (x - l) (y - t))
    /\ (forall x y,
          ~ (l <= x < l + PIL.width im /\ t <= y < t + PIL.height im) ->
          PIL.getpixel new_image x y = pad_fill type)
    /\ pad_fill type
       = (if (type =? "x")%string || (type =? "y")%string
          then (255, 255, 255, 255) else (0, 0, 0, 0)).
Proof.
  intros Hopaque Him Hn Hw Hh Hedges.
  assert (Hpix : forall x y,
             l <= x < l + PIL.width im -> t <= y < t + PIL.height im ->
             PIL.getpixel
               (PIL.pasted blend
                  (solid (l + PIL.width im + r) (t + PIL.height im + b)
                     (pad_fill type)) im (l, t)) x y
             = blend (pad_fill type) (PIL.getpixel im (x - l) (y - t))).
  { intros x y Hx Hy. cbn [PIL.pasted PIL.getpixel].
    assert (Hc : PIL.covers im (l, t) x y = true)
      by (apply covers_spec; tauto).
    rewrite Hc. reflexivity. }
  eexists. split; [apply add_padding_new_image; eassumption|].
  split; [apply lookup_app_l_Some, Him|].
  split; [reflexivity|]. split; [reflexivity|].
  split; [exact Hpix|]. split; [|split].
  - intros x y Hx Hy Hv Ha. rewrite Hpix by assumption.
    apply Hopaque; assumption.
  - intros x y Hout. cbn [PIL.pasted PIL.getpixel].
    destruct (PIL.covers im (l, t) x y) eqn:Hc; [|reflexivity].
    apply covers_spec in Hc. tauto.
  - reflexivity.
Qed.

Lemma add_padding_spec_witness :
  exists new_image,
    add_padding PIL.blend_RGBA 1%nat 5 "x" heap_between
    = (heap_between ++ [new_image], Ok 3%nat)
    /\ (heap_between ++ [new_image]) !! 1%nat = Some (solid 10 10 red)
    /\ PIL.width new_image = 5 + 10 + 5
    /\ PIL.height new_image = 0 + 10 + 0
    /\ (forall x y,
          5 <= x < 5 + 10 -> 0 <= y < 0 + 10 ->
          PIL.getpixel new_image x y = PIL.blend_RGBA (pad_fill "x") red)
    /\ (forall x y,
          5 <= x < 5 + 10 -> 0 <= y < 0 + 10 ->
          valid_pixel red -> alpha red = 255 ->
          PIL.getpixel new_image x y = red)
    /\ (forall x y,
          ~ (5 <= x < 5 + 10 /\ 0 <= y < 0 + 10) ->
          PIL.getpixel new_image x y = pad_fill "x")
    /\ pad_fill "x" = (255, 255, 255, 255).
Proof.
  apply (add_padding_spec PIL.blend_RGBA heap_between 1%nat
           (solid 10 10 red) 5 "x" 5 5 0 0);
    [exact blend_RGBA_opaque | reflexivity | lia | simpl; lia | simpl; lia
    | reflexivity].
Defined.

(** ** C8: what [render] leaves untouched *)

(** Induction over the tree of nested boxes. *)
Lemma FlexBox_tree_ind (P : FlexBox -> Prop) :
  (forall self,
      (forall box, In (BoxItem box) (items self) -> P box) -> P self) ->
  forall self, P self.
Proof.
  intros H. fix IH 1. intros [im0 sz w0 h0 its p g d j al fw ar rd].
  apply H. simpl.
  induction its as [|[im|box] rest IHrest]; intros bx Hin.
  - destruct Hin.
  - destruct Hin as [Heq|Hin]; [discriminate | apply IHrest, Hin].
  - destruct Hin as [Heq|Hin].
    + injection Heq as <-. apply IH.
    + apply IHrest, Hin.
Qed.

Lemma unchanged_refl n cs h : unchanged_below n cs h h.
Proof. split; [lia | reflexivity]. Qed.

Lemma unchanged_trans n cs h h1 h2 :
  unchanged_below n cs h h1 -> unchanged_below n cs h1 h2 ->
  unchanged_below n cs h h2.
Proof.
  intros [Hl1 H1] [Hl2 H2]. split; [lia|].
  intros l Hl Hn. rewrite H2, H1 by assumption. reflexivity.
Qed.

Lemma unchanged_paste blend n cs (h : Heap) self im box :
  In self cs \/ (n <= self)%nat ->
  unchanged_below n cs h (PIL.paste blend self im box h).
Proof.
  intros Hself. split; [rewrite paste_length; lia|].
  intros l Hl Hn. apply paste_lookup_ne.
  intros ->. destruct Hself; [contradiction | lia].
Qed.

Lemma unchanged_new_and_paste blend n cs (h : Heap) image sz fill at_ :
  (n <= length h)%nat ->
  unchanged_below n cs h (fst (new_and_paste blend image sz fill at_ h))
  /\ forall l, snd (new_and_paste blend image sz fill at_ h) = Ok l ->
               (n <= l)%nat.
Proof.
  intros Hn. unfold new_and_paste, PIL.new.
  destruct ((fst sz <? 0) || (snd sz <? 0)); cbn [fst snd].
  - split; [apply unchanged_refl | discriminate].
  - split.
    + split; [rewrite paste_length, length_app; lia|].
      intros l Hl Hnot. rewrite paste_lookup_ne by lia.
      apply lookup_app_l. lia.
    + intros l [= <-]. exact Hn.
Qed.

Lemma unchanged_add_padding blend n cs (h : Heap) image p type :
  (n <= length h)%nat ->
  unchanged_below n cs h (fst (add_padding blend image p type h))
  /\ forall l, snd (add_padding blend image p type h) = Ok l -> (n <= l)%nat.
Proof.
  intros Hn. unfold add_padding.
  repeat match goal with
         | |- context [if (type =? ?s)%string then _ else _] =>
             destruct (type =? s)%string;
             [apply unchanged_new_and_paste, Hn|]
         end.
  cbn [fst snd]. split; [apply unchanged_refl | discriminate].
Qed.

Lemma unchanged_grow blend n cs (h : Heap) self tm :
  (n <= length h)%nat ->
  In (image self) cs ->
  unchanged_below n cs h (snd (fst (grow blend self tm h)))
  /\ (In (image (fst (fst (grow blend self tm h)))) cs
      \/ (n <= image (fst (fst (grow blend self tm h))))%nat).
Proof.
  intros Hn Him. unfold grow.
  destruct (height self <? tm);
    [|cbn [fst snd]; split; [apply unchanged_refl | tauto]].
  destruct (unchanged_add_padding blend n cs h (image self)
              (tm - container_cross self + padding self * 2)
              (if is_row self then "bottom" else "right") Hn)
    as [Hu Hl].
  destruct (add_padding _ _ _ _ _) as [h1 [l|e]]; cbn [fst snd] in *.
  - split; [exact Hu|]. right. apply Hl. reflexivity.
  - split; [exact Hu | tauto].
Qed.

Lemma unchanged_place_items blend n cs self cc ao mx g line mc (h : Heap) :
  In (image self) cs \/ (n <= image self)%nat ->
  unchanged_below n cs h
    (snd (fold_left (place_item blend self cc ao mx g) line (mc, h))).
Proof.
  intros Him. revert mc h.
  induction line as [|item rest IH]; intros mc h; cbn [fold_left].
  - apply unchanged_refl.
  - unfold place_item at 2.
    eapply unchanged_trans; [|apply IH].
    apply unchanged_paste, Him.
Qed.

Lemma unchanged_render_lines blend n cs self ao lines cc (h : Heap) :
  In (image self) cs \/ (n <= image self)%nat ->
  unchanged_below n cs h (fst (render_lines blend self ao lines cc h)).
Proof.
  intros Him. revert cc h.
  induction lines as [|line rest IH]; intros cc h; simpl.
  - apply unchanged_refl.
  - destruct (py_max _) as [mx|e]; [|apply unchanged_refl].
    destruct (main_cursor_and_gap _ _ _) as [[mc g]|e];
      [|apply unchanged_refl].
    pose proof (unchanged_place_items blend n cs self cc ao mx g line mc h
                  Him) as Hp.
    destruct (fold_left _ line (mc, h)) as [mc1 h1]. cbn [snd] in Hp.
    eapply unchanged_trans; [exact Hp | apply IH].
Qed.

Lemma unchanged_render_items blend n cs self ris (h : Heap) :
  (n <= length h)%nat ->
  In (image self) cs ->
  unchanged_below n cs h (snd (fst (render_items blend self ris h))).
Proof.
  intros Hn Him. unfold render_items.
  destruct (total_max _ _ _) as [tm|e]; [|apply unchanged_refl].
  destruct (unchanged_grow blend n cs h self tm Hn Him) as [Hg Hi].
  destruct (grow blend self tm h) as [[s1 h1] [u|e]]; cbn [fst snd] in *;
    [|exact Hg].
  pose proof (unchanged_render_lines blend n cs s1
                (container_cross s1 - tm)
                (line_break self h ris) (padding s1) h1 Hi) as Hr.
  destruct (render_lines _ _ _ _ _ _) as [h2 [u'|e]]; cbn [fst snd] in *;
    eapply unchanged_trans; eassumption.
Qed.

Lemma canvases_eq self :
  canvases self
  = image self
    :: flat_map (fun it => match it with
                           | ImageItem _ => []
                           | BoxItem box => canvases box
                           end) (items self).
Proof. destruct self; reflexivity. Qed.

Lemma unchanged_flatten blend n cs (its : list Item) :
  (forall box, In (BoxItem box) its ->
     forall h, (n <= length h)%nat -> incl (canvases box) cs ->
       unchanged_below n cs h (snd (fst (render blend box h)))) ->
  (forall box, In (BoxItem box) its -> incl (canvases box) cs) ->
  forall h, (n <= length h)%nat ->
    unchanged_below n cs h (snd (fst (flatten (render blend) its h))).
Proof.
  induction its as [|[im|box] rest IH]; intros Hrec Hcs h Hn.
  - apply unchanged_refl.
  - cbn [flatten].
    specialize (IH (fun b Hb => Hrec b (or_intror Hb))
                   (fun b Hb => Hcs b (or_intror Hb)) h Hn).
    destruct (flatten (render blend) rest h) as [[rest1 h1] r]. exact IH.
  - cbn [flatten].
    pose proof (Hrec box (or_introl eq_refl) h Hn
                  (Hcs box (or_introl eq_refl))) as Hb.
    destruct (render blend box h) as [[box1 h1] [im|e]]; cbn [fst snd] in *;
      [|exact Hb].
    assert (Hn1 : (n <= length h1)%nat) by (destruct Hb; lia).
    specialize (IH (fun b Hb => Hrec b (or_intror Hb))
                   (fun b Hb => Hcs b (or_intror Hb)) h1 Hn1).
    destruct (flatten (render blend) rest h1) as [[rest1 h2] r].
    cbn [fst snd] in *. eapply unchanged_trans; eassumption.
Qed.

Lemma unchanged_render blend n cs self :
  forall h, (n <= length h)%nat -> incl (canvases self) cs ->
    unchanged_below n cs h (snd (fst (render blend self h))).
Proof.
  induction self as [self IH] using FlexBox_tree_ind.
  intros h Hn Hcs. rewrite render_eq.
  destruct (_rendered self); [apply unchanged_refl|].
  destruct (items self) as [|it its] eqn:Hits; [apply unchanged_refl|].
  rewrite canvases_eq in Hcs.
  assert (Hsub : forall box, In (BoxItem box) (items self) ->
                             incl (canvases box) cs).
  { intros box Hin l Hl. apply Hcs. right.
    apply in_flat_map. exists (BoxItem box). split; assumption. }
  rewrite Hits in Hsub.
  pose proof (unchanged_flatten blend n cs (it :: its) IH Hsub h Hn) as Hf.
  destruct (flatten (render blend) (it :: its) h) as [[items1 h1] [ris|e]];
    cbn [fst snd] in *; [|exact Hf].
  eapply unchanged_trans; [exact Hf|].
  apply unchanged_render_items.
  - destruct Hf. lia.
  - apply Hcs. left. reflexivity.
Qed.

(** C8 (counterexample).  The first child of [box_nested] is a nested
    box whose canvas is object 1.  During [render] of the parent the
    nested box is rendered, and its flat image, object 1, is one of the
    two images the parent pastes; it is not the canvas of the parent
    (object 0), yet its pixel at (0, 0) was fully transparent before the
    call and is red after it. *)
Lemma render_paints_nested_canvas :
  items box_nested = [BoxItem box_inner; ImageItem 3%nat]
  /\ image box_nested = 0%nat
  /\ image box_inner = 1%nat
  /\ snd (flatten (render PIL.blend_RGBA) (items box_nested) heap_nested)
     = Ok [1%nat; 3%nat]
  /\ snd (render PIL.blend_RGBA box_nested heap_nested) = Ok 0%nat
  /\ PIL.getpixel (PIL.deref heap_nested 1%nat) 0 0 = (0, 0, 0, 0)
  /\ PIL.getpixel
       (PIL.deref (snd (fst (render PIL.blend_RGBA box_nested heap_nested)))
          1%nat) 0 0
     = (255, 0, 0, 255).
Proof. repeat split. Qed.

(** C8 (amended).  An image object that exists before [render] is
    called and is not the canvas of the box or of a box nested in it is
    the same after the call, pixels, width and height: each paste
    mutates the canvas of the box that pastes and nothing else.  This
    holds for every raw child image that is not itself such a canvas,
    and whether the call returns or raises.  The flat image of a nested
    box is the canvas of that box, and is painted during the call. *)
Theorem render_mutates_canvases_only blend self (h : Heap) l im :
  h !! l = Some im ->
  ~ In l (canvases self) ->
  snd (fst (render blend self h)) !! l = Some im.
Proof.
  intros Hl Hnot.
  destruct (unchanged_render blend (length h) (canvases self) self h)
    as [_ Hu]; [lia | apply incl_refl|].
  rewrite Hu; [exact Hl | | exact Hnot].
  apply lookup_lt_Some in Hl. exact Hl.
Qed.

Lemma render_mutates_canvases_only_witness :
  snd (fst (render PIL.blend_RGBA box_nested heap_nested)) !! 3%nat
  = Some (solid 20 10 green).
Proof.
  apply (render_mutates_canvases_only PIL.blend_RGBA box_nested heap_nested
           3%nat (solid 20 10 green)).
  - reflexivity.
  - vm_compute. intros [H|[H|[]]]; discriminate H.
Defined.

(** * Further properties of the code *)

(** ** Line breaking *)

Lemma line_break_fold_concat self h rendered_items lines cur cm :
  let '(lines1, cur1, _) :=
    fold_left (line_break_step self h) rendered_items (lines, cur, cm) in
  concat lines1 ++ cur1 = concat lines ++ cur ++ rendered_items.
Proof.
  revert lines cur cm.
  induction rendered_items as [|item rest IH]; intros lines cur cm.
  - simpl. rewrite app_nil_r. reflexivity.
  - cbn [fold_left]. unfold line_break_step at 2.
    destruct ((flex_wrap self =? "wrap")%string
              && (container_main self - 2 * padding self
                  <? cm + (main_of self (PIL.deref h item)
                           + match cur with [] => 0 | _ => gap self end))).
    + specialize (IH (lines ++ [cur]) [item]
                     (main_of self (PIL.deref h item))).
      destruct (fold_left _ rest _) as [[lines1 cur1] cm1].
      rewrite IH, concat_app. simpl. rewrite app_nil_r, <- app_assoc.
      reflexivity.
    + specialize (IH lines (cur ++ [item])
                     (cm + (main_of self (PIL.deref h item)
                            + match cur with [] => 0 | _ => gap self end))).
      destruct (fold_left _ rest _) as [[lines1 cur1] cm1].
      rewrite IH, <- !app_assoc. reflexivity.
Qed.

(** X1.  The line breaking only cuts the sequence of children: whatever
    the configuration, the lines put end to end are the children in their
    order, none lost, repeated or moved. *)
Theorem line_break_keeps_children self (h : Heap) rendered_items :
  concat (line_break self h rendered_items) = rendered_items.
Proof.
  unfold line_break.
  pose proof (line_break_fold_concat self h rendered_items [] [] 0) as H.
  destruct (fold_left _ rendered_items _) as [[lines1 cur1] cm1].
  simpl in H. rewrite <- H.
  destruct cur1.
  - rewrite app_nil_r. reflexivity.
  - rewrite concat_app. simpl. rewrite app_nil_r. reflexivity.
Qed.

Lemma line_break_fold_nowrap self h rendered_items lines cur cm :
  flex_wrap self <> "wrap" ->
  exists cm1,
    fold_left (line_break_step self h) rendered_items (lines, cur, cm)
    = (lines, cur ++ rendered_items, cm1).
Proof.
  intros Hno. revert cur cm.
  induction rendered_items as [|item rest IH]; intros cur cm.
  - exists cm. simpl. rewrite app_nil_r. reflexivity.
  - cbn [fold_left]. unfold line_break_step at 2.
    rewrite (eqb_false_of_neq _ _ Hno). cbn [andb].
    destruct (IH (cur ++ [item])
                 (cm + (main_of self (PIL.deref h item)
                        + match cur with [] => 0 | _ => gap self end)))
      as [cm1 Heq].
    exists cm1. rewrite Heq, <- app_assoc. reflexivity.
Qed.

Lemma line_break_nowrap_lines self (h : Heap) rendered_items :
  flex_wrap self <> "wrap" ->
  rendered_items <> [] ->
  line_break self h rendered_items = [rendered_items].
Proof.
  intros Hno Hne. unfold line_break.
  destruct (line_break_fold_nowrap self h rendered_items [] [] 0 Hno)
    as [cm1 ->].
  simpl. destruct rendered_items; [congruence | reflexivity].
Qed.

(** X2.  A box whose wrap mode is not ["wrap"] never breaks: its
    children, if any, all land on one line, however long. *)
Theorem line_break_nowrap_single_line self (h : Heap) rendered_items :
  flex_wrap self <> "wrap" ->
  rendered_items <> [] ->
  line_break self h rendered_items = [rendered_items].
Proof. apply line_break_nowrap_lines. Qed.

Lemma line_break_nowrap_single_line_witness :
  line_break (set_flex_wrap box_row_overflow "nowrap") heap_row_overflow
    [1%nat; 2%nat]
  = [[1%nat; 2%nat]].
Proof.
  apply (line_break_nowrap_single_line
           (set_flex_wrap box_row_overflow "nowrap") heap_row_overflow
           [1%nat; 2%nat]); discriminate.
Defined.

(** X3.  In a wrapping box whose first child fits within
    [container_main - 2*padding], every line is non-empty and either its
    extent (children plus one configured gap between neighbours) is
    within that bound, or it holds a single child that alone exceeds
    it. *)
Theorem wrap_lines_within_bound self (h : Heap) first rest :
  flex_wrap self = "wrap" ->
  main_of self (PIL.deref h first)
  <= container_main self - 2 * padding self ->
  Forall (fun line => line <> [] /\ line_fits self h line)
         (line_break self h (first :: rest)).
Proof.
  intros Hwrap Hfirst. apply line_break_wrap_fits; assumption.
Qed.

Lemma wrap_lines_within_bound_witness :
  Forall (fun line => line <> []
                      /\ line_fits box_row_overflow heap_row_overflow line)
         (line_break box_row_overflow heap_row_overflow [1%nat; 2%nat]).
Proof.
  apply (wrap_lines_within_bound box_row_overflow heap_row_overflow
           1%nat [2%nat]).
  - reflexivity.
  - vm_compute. discriminate.
Defined.

Lemma flatten_raw_images
    (rend : FlexBox -> Heap -> FlexBox * Heap * Res loc)
    (ims : list loc) (h : Heap) :
  flatten rend (map ImageItem ims) h = (map ImageItem ims, h, Ok ims).
Proof.
  induction ims as [|im rest IH]; [reflexivity|].
  cbn [map flatten]. rewrite IH. reflexivity.
Qed.

Lemma set_items_same self : set_items self (items self) = self.
Proof. destruct self; reflexivity. Qed.

(** X4.  A wrapping box of raw images whose first child alone exceeds
    [container_main - 2*padding] cannot be rendered: every call raises
    the [ValueError] of [max()], pastes nothing and leaves the box
    unrendered, whatever the other children are. *)
Theorem render_wrap_first_oversized_raises blend self (h : Heap) first rest :
  _rendered self = false ->
  items self = map ImageItem (first :: rest) ->
  flex_wrap self = "wrap" ->
  container_main self - 2 * padding self
  < main_of self (PIL.deref h first) ->
  render blend self h
  = (self, h, Raise (ValueError "max() arg is an empty sequence")).
Proof.
  intros Hr Hits Hwrap Hbig. rewrite render_eq, Hr, Hits.
  cbn [map]. change (ImageItem first :: map ImageItem rest)
    with (map (@ImageItem FlexBox) (first :: rest)).
  rewrite flatten_raw_images, <- Hits, set_items_same.
  apply render_items_first_oversized; assumption.
Qed.

Lemma render_wrap_first_oversized_raises_witness :
  render PIL.blend_RGBA
    (fst (add_items box_oversized [ImageItem 0%nat])) heap_oversized
  = (fst (add_items box_oversized [ImageItem 0%nat]), heap_oversized,
     Raise (ValueError "max() arg is an empty sequence")).
Proof.
  apply (render_wrap_first_oversized_raises PIL.blend_RGBA
           (fst (add_items box_oversized [ImageItem 0%nat])) heap_oversized
           1%nat [0%nat]).
  - reflexivity.
  - reflexivity.
  - reflexivity.
  - vm_compute. reflexivity.
Defined.

(** ** The main cursor along a line *)

Lemma fold_add_init (xs : list Z) :
  forall a, fold_left Z.add xs a = a + fold_left Z.add xs 0.
Proof.
  induction xs as [|x xs IH]; intros a; cbn [fold_left].
  - lia.
  - rewrite (IH (a + x)), (IH (0 + x)). lia.
Qed.

Lemma py_sum_cons x xs : py_sum (x :: xs) = x + py_sum xs.
Proof. unfold py_sum at 1. simpl. apply fold_add_init. Qed.

Lemma main_of_size self im1 im2 :
  PIL.size im1 = PIL.size im2 -> main_of self im1 = main_of self im2.
Proof.
  unfold PIL.size, main_of. intros [= -> ->]. reflexivity.
Qed.

Lemma place_items_cursor blend self cc ao mx g line :
  forall mc (h0 h : Heap),
    (forall l, PIL.size (PIL.deref h l) = PIL.size (PIL.deref h0 l)) ->
    fst (fold_left (place_item blend self cc ao mx g) line (mc, h))
    = mc + py_sum (map (fun item => main_of self (PIL.deref h0 item)) line)
      + g * Z.of_nat (length line).
Proof.
  induction line as [|item rest IH]; intros mc h0 h Hsz.
  - simpl. unfold py_sum. simpl. lia.
  - cbn [fold_left]. unfold place_item at 2.
    rewrite (IH _ h0).
    + rewrite paste_main_of, (main_of_size self _ _ (Hsz item)).
      cbn [map length]. rewrite py_sum_cons, Nat2Z.inj_succ. lia.
    + intros l. rewrite paste_size. apply Hsz.
Qed.

(** X5.  Along a line the main cursor advances by the main size of every
    item plus the effective gap: after the last item it stands at the
    start plus the total main size plus one gap per item.  The pastes in
    between do not disturb it, since a paste changes no size. *)
Theorem main_cursor_after_line blend self cross_cursor alignment_offset
    max_cross g (line : list loc) start (h : Heap) :
  fst (fold_left
         (place_item blend self cross_cursor alignment_offset max_cross g)
         line (start, h))
  = start
    + py_sum (map (fun item => main_of self (PIL.deref h item)) line)
    + g * Z.of_nat (length line).
Proof. apply place_items_cursor. reflexivity. Qed.

(** X6.  Justify ["end"]: the far edge of the last item of a line (the
    cursor after the line, less the trailing gap) is exactly
    [container_main - padding]. *)
Theorem justify_end_flush blend self cross_cursor alignment_offset max_cross
    (line : list loc) (h : Heap) :
  justify self = "end" ->
  exists start g,
    main_cursor_and_gap self
      (py_sum (map (fun item => main_of self (PIL.deref h item)) line))
      (Z.of_nat (length line))
    = Ok (start, g)
    /\ fst (fold_left
              (place_item blend self cross_cursor alignment_offset
                 max_cross g)
              line (start, h)) - g
       = container_main self - padding self.
Proof.
  intros Hj. unfold main_cursor_and_gap. rewrite Hj. cbn [String.eqb
    Ascii.eqb Bool.eqb].
  eexists _, _. split; [reflexivity|].
  rewrite (place_items_cursor _ _ _ _ _ _ _ _ h h) by reflexivity. lia.
Qed.

Lemma justify_end_flush_witness :
  exists start g,
    main_cursor_and_gap (set_justify box_between "end")
      (py_sum (map (fun item =>
                      main_of (set_justify box_between "end")
                        (PIL.deref heap_between item))
                   [1%nat; 2%nat]))
      (Z.of_nat (length [1%nat; 2%nat]))
    = Ok (start, g)
    /\ fst (fold_left
              (place_item PIL.blend_RGBA (set_justify box_between "end")
                 0 0 10 g)
              [1%nat; 2%nat] (start, heap_between)) - g
       = container_main (set_justify box_between "end")
         - padding (set_justify box_between "end").
Proof.
  apply (justify_end_flush PIL.blend_RGBA (set_justify box_between "end")
           0 0 10 [1%nat; 2%nat] heap_between).
  reflexivity.
Defined.

(** X7.  Justify ["space-between"] on a line of at least two items: the
    first item starts at the padding and the far edge of the last one
    ends at [container_main - padding], short of it by the remainder of
    the floor division only, that is by less than the number of gaps. *)
Theorem justify_space_between_flush blend self cross_cursor alignment_offset
    max_cross (line : list loc) (h : Heap) :
  justify self = "space-between" ->
  (2 <= length line)%nat ->
  exists g,
    main_cursor_and_gap self
      (py_sum (map (fun item => main_of self (PIL.deref h item)) line))
      (Z.of_nat (length line))
    = Ok (padding self, g)
    /\ container_main self - padding self - (Z.of_nat (length line) - 1)
       < fst (fold_left
                (place_item blend self cross_cursor alignment_offset
                   max_cross g)
                line (padding self, h)) - g
       <= container_main self - padding self.
Proof.
  intros Hj Hlen. unfold main_cursor_and_gap, py_floordiv. rewrite Hj.
  cbn [String.eqb Ascii.eqb Bool.eqb andb].
  set (n := Z.of_nat (length line)).
  set (tms := py_sum (map (fun item => main_of self (PIL.deref h item))
                          line)).
  assert (Hn : 2 <= n) by (unfold n; lia).
  destruct (Z.ltb_spec 1 n) as [_|]; [|lia].
  destruct (Z.eqb_spec (n - 1) 0) as [|_]; [lia|].
  cbn [res_map]. eexists. split; [reflexivity|].
  rewrite (place_items_cursor _ _ _ _ _ _ _ _ h h) by reflexivity.
  fold tms. fold n.
  set (tgs := container_main self - 2 * padding self - tms).
  pose proof (Z.div_mod tgs (n - 1) ltac:(lia)) as Hdm.
  pose proof (Z.mod_pos_bound tgs (n - 1) ltac:(lia)) as Hmod.
  unfold tgs in *. nia.
Qed.

Lemma justify_space_between_flush_witness :
  exists g,
    main_cursor_and_gap box_between
      (py_sum (map (fun item => main_of box_between
                                  (PIL.deref heap_between item))
                   [1%nat; 2%nat]))
      (Z.of_nat (length [1%nat; 2%nat]))
    = Ok (padding box_between, g)
    /\ container_main box_between - padding box_between
       - (Z.of_nat (length [1%nat; 2%nat]) - 1)
       < fst (fold_left
                (place_item PIL.blend_RGBA box_between 0 0 10 g)
                [1%nat; 2%nat] (padding box_between, heap_between)) - g
       <= container_main box_between - padding box_between.
Proof.
  apply (justify_space_between_flush PIL.blend_RGBA box_between 0 0 10
           [1%nat; 2%nat] heap_between).
  - reflexivity.
  - simpl. lia.
Defined.

(** X8.  Justify ["center"]: the space left before the first item and
    the space left after the last one (both measured from the padding)
    are equal, or the one after is larger by the single pixel an odd
    remainder leaves. *)
Theorem justify_center_balanced blend self cross_cursor alignment_offset
    max_cross (line : list loc) (h : Heap) :
  justify self = "center" ->
  exists start g,
    main_cursor_and_gap self
      (py_sum (map (fun item => main_of self (PIL.deref h item)) line))
      (Z.of_nat (length line))
    = Ok (start, g)
    /\ let far_edge :=
         fst (fold_left
                (place_item blend self cross_cursor alignment_offset
                   max_cross g)
                line (start, h)) - g in
       let before := start - padding self in
       let after := container_main self - padding self - far_edge in
       0 <= after - before <= 1.
Proof.
  intros Hj. unfold main_cursor_and_gap. rewrite Hj.
  cbn [String.eqb Ascii.eqb Bool.eqb].
  eexists _, _. split; [reflexivity|]. cbv zeta.
  rewrite (place_items_cursor _ _ _ _ _ _ _ _ h h) by reflexivity.
  set (n := Z.of_nat (length line)).
  set (tms := py_sum (map (fun item => main_of self (PIL.deref h item))
                          line)).
  set (L := container_main self - 2 * padding self - tms
            - gap self * (n - 1)).
  pose proof (Z.div_mod L 2 ltac:(lia)) as Hdm.
  pose proof (Z.mod_pos_bound L 2 ltac:(lia)) as Hmod.
  unfold L in *. lia.
Qed.

Lemma justify_center_balanced_witness :
  exists start g,
    main_cursor_and_gap (set_justify box_between "center")
      (py_sum (map (fun item =>
                      main_of (set_justify box_between "center")
                        (PIL.deref heap_between item))
                   [1%nat; 2%nat]))
      (Z.of_nat (length [1%nat; 2%nat]))
    = Ok (start, g)
    /\ let far_edge :=
         fst (fold_left
                (place_item PIL.blend_RGBA
                   (set_justify box_between "center") 0 0 10 g)
                [1%nat; 2%nat] (start, heap_between)) - g in
       let before := start - padding (set_justify box_between "center") in
       let after :=
         container_main (set_justify box_between "center")
         - padding (set_justify box_between "center") - far_edge in
       0 <= after - before <= 1.
Proof.
  apply (justify_center_balanced PIL.blend_RGBA
           (set_justify box_between "center") 0 0 10 [1%nat; 2%nat]
           heap_between).
  reflexivity.
Defined.

(** ** What [render] can raise *)

Lemma main_cursor_and_gap_ok self tms n :
  1 <= n -> exists v, main_cursor_and_gap self tms n = Ok v.
Proof.
  intros Hn. unfold main_cursor_and_gap, py_floordiv.
  destruct (justify self =? "start")%string; [eauto|].
  destruct (justify self =? "end")%string; [eauto|].
  destruct (justify self =? "center")%string; [eauto|].
  destruct ((justify self =? "space-between")%string && (1 <? n)) eqn:Hsb.
  { apply andb_true_iff in Hsb. destruct Hsb as [_ Hlt].
    apply Z.ltb_lt in Hlt.
    destruct (Z.eqb_spec (n - 1) 0); [lia|]. cbn [res_map]. eauto. }
  destruct (justify self =? "space-around")%string.
  { destruct (Z.eqb_spec n 0); [lia|]. cbn [res_map]. eauto. }
  destruct (justify self =? "space-evenly")%string.
  { destruct (Z.eqb_spec (n + 1) 0); [lia|]. cbn [res_map]. eauto. }
  eauto.
Qed.

Lemma sum_max_cross_ok_nonempty self (h : Heap) lines acc tm :
  sum_max_cross self h lines acc = Ok tm -> Forall (fun l => l <> []) lines.
Proof.
  revert acc. induction lines as [|line rest IH]; intros acc H.
  - constructor.
  - simpl in H. destruct line as [|x line]; [discriminate|].
    constructor; [discriminate|]. cbn [map py_max] in H. eapply IH, H.
Qed.

Lemma render_lines_ok blend self ao lines :
  Forall (fun l => l <> []) lines ->
  forall cc (h : Heap), snd (render_lines blend self ao lines cc h) = Ok tt.
Proof.
  induction 1 as [|line rest Hne _ IH]; intros cc h; [reflexivity|].
  cbn [render_lines]. destruct line as [|x line]; [congruence|].
  cbn [map py_max].
  destruct (main_cursor_and_gap_ok self
              (py_sum (main_of self (PIL.deref h x)
                       :: map (fun item => main_of self (PIL.deref h item))
                            line))
              (Z.of_nat (length (x :: line)))) as [[mc g] ->];
    [simpl length; lia|].
  destruct (fold_left _ (x :: line) (mc, h)) as [mc1 h1]. apply IH.
Qed.

Lemma new_and_paste_error blend image sz fill at_ (h : Heap) e :
  snd (new_and_paste blend image sz fill at_ h) = Raise e ->
  e = ValueError "Width and height must be >= 0"
  /\ fst (new_and_paste blend image sz fill at_ h) = h.
Proof.
  unfold new_and_paste, PIL.new.
  destruct ((fst sz <? 0) || (snd sz <? 0)); cbn [fst snd].
  - intros [= <-]. split; reflexivity.
  - discriminate.
Qed.

Lemma grow_error blend self tm (h : Heap) e :
  snd (grow blend self tm h) = Raise e ->
  e = ValueError "Width and height must be >= 0".
Proof.
  unfold grow. destruct (height self <? tm); [|discriminate].
  assert (Hnp : exists sz at_,
             add_padding blend (image self)
               (tm - container_cross self + padding self * 2)
               (if is_row self then "bottom" else "right") h
             = new_and_paste blend (image self) sz transparent at_ h).
  { unfold add_padding. destruct (is_row self); cbn; eauto. }
  destruct Hnp as (sz & at_ & ->).
  pose proof (new_and_paste_error blend (image self) sz transparent at_ h)
    as Hnp.
  destruct (new_and_paste _ _ _ _ _ _) as [h1 [l|e1]]; cbn [fst snd] in *.
  - discriminate.
  - intros [= <-]. apply (Hnp e1 eq_refl).
Qed.

Lemma render_items_error blend self ris (h : Heap) e :
  snd (render_items blend self ris h) = Raise e -> render_error e.
Proof.
  unfold render_items, total_max.
  destruct (sum_max_cross self h (line_break self h ris) 0) as [tm|e1] eqn:Ht.
  - pose proof (grow_error blend self tm h) as Hg.
    destruct (grow blend self tm h) as [[s1 h1] [u|e1]]; cbn [snd] in *.
    + pose proof (render_lines_ok blend s1 (container_cross s1 - tm) _
                    (sum_max_cross_ok_nonempty _ _ _ _ _ Ht)
                    (padding s1) h1) as Hl.
      destruct (render_lines _ _ _ _ _ _) as [h2 r]. cbn [snd] in *.
      subst r. discriminate.
    + intros [= <-]. right. apply Hg. reflexivity.
  - cbn [snd]. intros [= <-]. left.
    clear -Ht. revert Ht. generalize 0 as acc.
    induction (line_break self h ris) as [|line rest IH]; intros acc Ht.
    + discriminate.
    + simpl in Ht. destruct line as [|x line].
      * cbn in Ht. injection Ht as <-. reflexivity.
      * cbn [map py_max] in Ht. eapply IH, Ht.
Qed.

Lemma flatten_error blend (its : list Item) :
  (forall box, In (BoxItem box) its ->
     forall h e, snd (render blend box h) = Raise e -> render_error e) ->
  forall (h : Heap) e,
    snd (flatten (render blend) its h) = Raise e -> render_error e.
Proof.
  induction its as [|[im|box] rest IH]; intros Hrec h e.
  - discriminate.
  - cbn [flatten].
    specialize (IH (fun b Hb => Hrec b (or_intror Hb)) h e).
    destruct (flatten (render blend) rest h) as [[rest1 h1] [r|e1]];
      cbn [snd res_map] in *; [discriminate | exact IH].
  - cbn [flatten].
    pose proof (Hrec box (or_introl eq_refl) h) as Hb.
    destruct (render blend box h) as [[box1 h1] [im|e1]]; cbn [snd] in *.
    + specialize (IH (fun b Hb => Hrec b (or_intror Hb)) h1 e).
      destruct (flatten (render blend) rest h1) as [[rest1 h2] [r|e2]];
        cbn [snd res_map] in *; [discriminate | exact IH].
    + intros [= <-]. apply Hb. reflexivity.
Qed.

(** In this model, where no Pillow call overflows, an exception of
    [render] is one of the two [ValueError]s. *)
Lemma render_error_cases blend self (h : Heap) e :
  snd (render blend self h) = Raise e -> render_error e.
Proof.
  revert h e. induction self as [self IH] using FlexBox_tree_ind.
  intros h e. rewrite render_eq.
  destruct (_rendered self); [discriminate|].
  destruct (items self) as [|it its] eqn:Hits; [discriminate|].
  pose proof (flatten_error blend (it :: its) IH h) as Hf.
  destruct (flatten (render blend) (it :: its) h) as [[items1 h1] [ris|e1]];
    cbn [snd] in *.
  - apply render_items_error.
  - intros [= <-]. apply Hf. reflexivity.
Qed.

(** X9.  [render] never raises [ZeroDivisionError], for any box, nested
    boxes included, and any images: the justify chain divides by the
    number of items of a line and by that number less one, but a line
    reaches it only after [max()] has accepted it, so it has at least one
    item, and the division by the number less one is guarded by
    [num_items > 1]. *)
Theorem render_never_divides_by_zero blend self (h : Heap) :
  snd (render blend self h) <> Raise ZeroDivisionError.
Proof.
  intros H. apply render_error_cases in H. destruct H; discriminate.
Qed.

(** ** Objects keep their size *)

Lemma sizes_kept_refl h : sizes_kept h h.
Proof. intros l im H. eauto. Qed.

Lemma sizes_kept_trans h h1 h2 :
  sizes_kept h h1 -> sizes_kept h1 h2 -> sizes_kept h h2.
Proof.
  intros H1 H2 l im Hl.
  destruct (H1 l im Hl) as (im1 & Hl1 & Hs1).
  destruct (H2 l im1 Hl1) as (im2 & Hl2 & Hs2).
  exists im2. split; [assumption | congruence].
Qed.

Lemma sizes_kept_paste blend self im box (h : Heap) :
  sizes_kept h (PIL.paste blend self im box h).
Proof.
  intros l im0 Hl. unfold PIL.paste.
  destruct (decide (self = l)) as [->|Hne].
  - rewrite list_lookup_insert_eq by (eapply lookup_lt_Some, Hl).
    eexists. split; [reflexivity|].
    rewrite (deref_lookup h l im0 Hl). reflexivity.
  - rewrite list_lookup_insert_ne by assumption. eauto.
Qed.

Lemma sizes_kept_new_and_paste blend image sz fill at_ (h : Heap) :
  sizes_kept h (fst (new_and_paste blend image sz fill at_ h)).
Proof.
  unfold new_and_paste, PIL.new.
  destruct ((fst sz <? 0) || (snd sz <? 0)); cbn [fst snd].
  - apply sizes_kept_refl.
  - eapply sizes_kept_trans; [|apply sizes_kept_paste].
    intros l im Hl. exists im. split; [|reflexivity].
    apply lookup_app_l_Some, Hl.
Qed.

Lemma sizes_kept_grow blend self tm (h : Heap) :
  sizes_kept h (snd (fst (grow blend self tm h))).
Proof.
  unfold grow. destruct (height self <? tm); [|apply sizes_kept_refl].
  assert (Hnp : exists sz at_,
             add_padding blend (image self)
               (tm - container_cross self + padding self * 2)
               (if is_row self then "bottom" else "right") h
             = new_and_paste blend (image self) sz transparent at_ h).
  { unfold add_padding. destruct (is_row self); cbn; eauto. }
  destruct Hnp as (sz & at_ & ->).
  pose proof (sizes_kept_new_and_paste blend (image self) sz transparent
                at_ h) as Hk.
  destruct (new_and_paste _ _ _ _ _ _) as [h1 [l|e]]; exact Hk.
Qed.

Lemma sizes_kept_place_items blend self cc ao mx g line mc (h : Heap) :
  sizes_kept h
    (snd (fold_left (place_item blend self cc ao mx g) line (mc, h))).
Proof.
  revert mc h. induction line as [|item rest IH]; intros mc h;
    cbn [fold_left].
  - apply sizes_kept_refl.
  - unfold place_item at 2.
    eapply sizes_kept_trans; [apply sizes_kept_paste | apply IH].
Qed.

Lemma sizes_kept_render_lines blend self ao lines cc (h : Heap) :
  sizes_kept h (fst (render_lines blend self ao lines cc h)).
Proof.
  revert cc h. induction lines as [|line rest IH]; intros cc h; simpl.
  - apply sizes_kept_refl.
  - destruct (py_max _) as [mx|e]; [|apply sizes_kept_refl].
    destruct (main_cursor_and_gap _ _ _) as [[mc g]|e];
      [|apply sizes_kept_refl].
    pose proof (sizes_kept_place_items blend self cc ao mx g line mc h)
      as Hp.
    destruct (fold_left _ line (mc, h)) as [mc1 h1]. cbn [snd] in Hp.
    eapply sizes_kept_trans; [exact Hp | apply IH].
Qed.

Lemma sizes_kept_render_items blend self ris (h : Heap) :
  sizes_kept h (snd (fst (render_items blend self ris h))).
Proof.
  unfold render_items.
  destruct (total_max _ _ _) as [tm|e]; [|apply sizes_kept_refl].
  pose proof (sizes_kept_grow blend self tm h) as Hg.
  destruct (grow blend self tm h) as [[s1 h1] [u|e]]; cbn [fst snd] in *;
    [|exact Hg].
  pose proof (sizes_kept_render_lines blend s1 (container_cross s1 - tm)
                (line_break self h ris) (padding s1) h1) as Hr.
  destruct (render_lines _ _ _ _ _ _) as [h2 [u'|e]]; cbn [fst snd] in *;
    eapply sizes_kept_trans; eassumption.
Qed.

Lemma sizes_kept_flatten blend (its : list Item) :
  (forall box, In (BoxItem box) its ->
     forall h, sizes_kept h (snd (fst (render blend box h)))) ->
  forall h, sizes_kept h (snd (fst (flatten (render blend) its h))).
Proof.
  induction its as [|[im|box] rest IH]; intros Hrec h.
  - apply sizes_kept_refl.
  - cbn [flatten].
    specialize (IH (fun b Hb => Hrec b (or_intror Hb)) h).
    destruct (flatten (render blend) rest h) as [[rest1 h1] r]. exact IH.
  - cbn [flatten].
    pose proof (Hrec box (or_introl eq_refl) h) as Hb.
    destruct (render blend box h) as [[box1 h1] [im|e]]; cbn [fst snd] in *;
      [|exact Hb].
    specialize (IH (fun b Hb => Hrec b (or_intror Hb)) h1).
    destruct (flatten (render blend) rest h1) as [[rest1 h2] r].
    cbn [fst snd] in *. eapply sizes_kept_trans; eassumption.
Qed.

Lemma sizes_kept_render blend self :
  forall h, sizes_kept h (snd (fst (render blend self h))).
Proof.
  induction self as [self IH] using FlexBox_tree_ind. intros h.
  rewrite render_eq.
  destruct (_rendered self); [apply sizes_kept_refl|].
  destruct (items self) as [|it its] eqn:Hits; [apply sizes_kept_refl|].
  pose proof (sizes_kept_flatten blend (it :: its) IH h) as Hf.
  destruct (flatten (render blend) (it :: its) h) as [[items1 h1] [ris|e]];
    cbn [fst snd] in *; [|exact Hf].
  eapply sizes_kept_trans; [exact Hf | apply sizes_kept_render_items].
Qed.

(** X10.  [render] never resizes or drops an image object: every object
    that exists before the call, the canvases included, exists after it
    with the same width and height, whether the call returns or raises.
    A canvas that has to grow is replaced by a new object. *)
Theorem render_keeps_object_sizes blend self (h : Heap) l im :
  h !! l = Some im ->
  exists im1,
    snd (fst (render blend self h)) !! l = Some im1
    /\ PIL.width im1 = PIL.width im /\ PIL.height im1 = PIL.height im.
Proof.
  intros Hl. destruct (sizes_kept_render blend self h l im Hl)
    as (im1 & Hl1 & Hs).
  exists im1. split; [exact Hl1|].
  unfold PIL.size in Hs. injection Hs as -> ->. split; reflexivity.
Qed.

Lemma render_keeps_object_sizes_witness :
  exists im1,
    snd (fst (render PIL.blend_RGBA box_row_overflow heap_row_overflow))
      !! 0%nat = Some im1
    /\ PIL.width im1 = PIL.width (solid 30 20 transparent)
    /\ PIL.height im1 = PIL.height (solid 30 20 transparent).
Proof.
  apply (render_keeps_object_sizes PIL.blend_RGBA box_row_overflow
           heap_row_overflow 0%nat (solid 30 20 transparent)).
  reflexivity.
Defined.

(** ** What [render] leaves of the box *)

Lemma flatten_length (rend : FlexBox -> Heap -> FlexBox * Heap * Res loc)
    (its : list Item) (h : Heap) :
  length (fst (fst (flatten rend its h))) = length its.
Proof.
  revert h. induction its as [|[im|box] rest IH]; intros h.
  - reflexivity.
  - cbn [flatten]. specialize (IH h).
    destruct (flatten rend rest h) as [[rest1 h1] r]. simpl in *. lia.
  - cbn [flatten].
    destruct (rend box h) as [[box1 h1] [im|e]]; [|reflexivity].
    specialize (IH h1).
    destruct (flatten rend rest h1) as [[rest1 h2] r]. simpl in *. lia.
Qed.

Lemma grow_items_size blend self tm (h : Heap) :
  items (fst (fst (grow blend self tm h))) = items self
  /\ size (fst (fst (grow blend self tm h))) = size self
  /\ _rendered (fst (fst (grow blend self tm h))) = _rendered self.
Proof.
  unfold grow. destruct (height self <? tm); [|auto].
  destruct (add_padding _ _ _ _ _) as [h1 [l|e]]; auto.
Qed.

Lemma render_items_items_size blend self ris (h : Heap) :
  items (fst (fst (render_items blend self ris h))) = items self
  /\ size (fst (fst (render_items blend self ris h))) = size self.
Proof.
  unfold render_items.
  destruct (total_max _ _ _) as [tm|e]; [|auto].
  pose proof (grow_items_size blend self tm h) as (Hi & Hs & _).
  destruct (grow blend self tm h) as [[s1 h1] [u|e]]; cbn [fst] in *;
    [|auto].
  destruct (render_lines _ _ _ _ _ _) as [h2 [u'|e]]; auto.
Qed.

(** X11.  [render] assigns to the canvas, the width, the height, the
    flag and, through the nested boxes, to the children only.  The
    [size] attribute set by the constructor is never updated, so after a
    growth it still holds the size of the first canvas; padding, gap,
    the four literals and [allow_resize] are what they were, and so is
    the number of children. *)
Theorem render_keeps_configuration blend self (h : Heap) :
  let self1 := fst (fst (render blend self h)) in
  size self1 = size self
  /\ config self1 = config self
  /\ length (items self1) = length (items self).
Proof.
  cbv zeta. split; [|split; [apply render_config|]].
  - rewrite render_eq.
    destruct (_rendered self); [reflexivity|].
    destruct (items self) as [|it its]; [reflexivity|].
    destruct (flatten (render blend) (it :: its) h)
      as [[items1 h1] [ris|e]]; [|reflexivity].
    destruct (render_items_items_size blend (set_items self items1) ris h1)
      as [_ ->]. reflexivity.
  - rewrite render_eq.
    destruct (_rendered self); [reflexivity|].
    destruct (items self) as [|it its] eqn:Hits;
      [cbn [fst]; rewrite Hits; reflexivity|].
    pose proof (flatten_length (render blend) (it :: its) h) as Hlen.
    destruct (flatten (render blend) (it :: its) h)
      as [[items1 h1] [ris|e]]; cbn [fst] in *.
    + destruct (render_items_items_size blend (set_items self items1) ris
                  h1) as [-> _]. exact Hlen.
    + exact Hlen.
Qed.

(** ** After [render] has returned *)

Lemma render_ok_state blend self (h : Heap) self1 h1 im :
  render blend self h = (self1, h1, Ok im) ->
  im = image self1 /\ (_rendered self1 = true \/ items self1 = []).
Proof.
  intros H. rewrite render_eq in H.
  destruct (_rendered self) eqn:Hr.
  - inversion H; subst. auto.
  - destruct (items self) as [|it its] eqn:Hits.
    + inversion H; subst. auto.
    + destruct (flatten (render blend) (it :: its) h)
        as [[items1 h0] [ris|e]]; [|discriminate].
      unfold render_items in H.
      destruct (total_max _ _ _); [|discriminate].
      destruct (grow _ _ _ _) as [[s2 h2] [u|e]]; [|discriminate].
      destruct (render_lines _ _ _ _ _ _) as [h3 [u'|e]]; [|discriminate].
      inversion H; subst. auto.
Qed.

Lemma render_done blend self (h : Heap) :
  _rendered self = true \/ items self = [] ->
  render blend self h = (self, h, Ok (image self)).
Proof.
  intros Hd. rewrite render_eq.
  destruct (_rendered self); [reflexivity|].
  destruct Hd as [Hd|Hd]; [discriminate | rewrite Hd; reflexivity].
Qed.

Lemma flatten_ok_children blend (its its1 : list Item) (h h1 : Heap) ris :
  flatten (render blend) its h = (its1, h1, Ok ris) ->
  forall box1, In (BoxItem box1) its1 ->
               _rendered box1 = true \/ items box1 = [].
Proof.
  revert its1 h h1 ris.
  induction its as [|[im|box] rest IH]; intros its1 h h1 ris H box1 Hin.
  - injection H as <- _ _. destruct Hin.
  - cbn [flatten] in H.
    destruct (flatten (render blend) rest h) as [[rest1 h2] [r|e]] eqn:Hf;
      cbn [res_map] in H; [|discriminate].
    injection H as <- _ _.
    destruct Hin as [Heq|Hin]; [discriminate|].
    eapply IH; [exact Hf | exact Hin].
  - cbn [flatten] in H.
    destruct (render blend box h) as [[bx h2] [im|e]] eqn:Hb;
      [|discriminate].
    destruct (flatten (render blend) rest h2) as [[rest1 h3] [r|e]] eqn:Hf;
      cbn [res_map] in H; [|discriminate].
    injection H as <- _ _.
    destruct Hin as [Heq|Hin].
    + injection Heq as <-. eapply render_ok_state, Hb.
    + eapply IH; [exact Hf | exact Hin].
Qed.

(** X12.  Once [render] has returned on a box that was not yet rendered,
    every nested box that has children is marked rendered as well: an
    [add_items] on it raises the ordering error and leaves it as it
    is. *)
Theorem nested_boxes_closed_by_render blend self (h : Heap) self1 h1 im
    box1 new_items :
  render blend self h = (self1, h1, Ok im) ->
  _rendered self = false ->
  In (BoxItem box1) (items self1) ->
  items box1 <> [] ->
  _rendered box1 = true
  /\ add_items box1 new_items
     = (box1, Raise (ValueError "Cannot add items after rendering")).
Proof.
  intros H Hr Hin Hne.
  assert (Hst : _rendered box1 = true \/ items box1 = []).
  { rewrite render_eq, Hr in H.
    destruct (items self) as [|it its] eqn:Hits.
    - inversion H; subst. rewrite Hits in Hin. destruct Hin.
    - destruct (flatten (render blend) (it :: its) h)
        as [[items1 h0] [ris|e]] eqn:Hf; [|discriminate].
      destruct (render_items_items_size blend (set_items self items1) ris
                  h0) as [Hi _].
      rewrite H in Hi. cbn [fst items set_items] in Hi. rewrite Hi in Hin.
      eapply flatten_ok_children; [exact Hf | exact Hin]. }
  destruct Hst as [Hst|Hst]; [|congruence].
  split; [exact Hst|]. unfold add_items. rewrite Hst. reflexivity.
Qed.

Lemma nested_boxes_closed_by_render_witness :
  _rendered (set_rendered box_inner true) = true
  /\ add_items (set_rendered box_inner true) [ImageItem 3%nat]
     = (set_rendered box_inner true,
        Raise (ValueError "Cannot add items after rendering")).
Proof.
  apply (nested_boxes_closed_by_render PIL.blend_RGBA box_nested heap_nested
           (fst (fst (render PIL.blend_RGBA box_nested heap_nested)))
           (snd (fst (render PIL.blend_RGBA box_nested heap_nested)))
           0%nat).
  - vm_compute. reflexivity.
  - reflexivity.
  - vm_compute. left. reflexivity.
  - discriminate.
Defined.

(** X13.  [get_rendered_bytes] encodes the very image [render] returns,
    and is repeatable: once it has returned, a second call gives the
    same bytes and changes neither the box nor the heap. *)
Theorem get_rendered_bytes_repeatable blend save_png self (h : Heap)
    self1 h1 bytes :
  get_rendered_bytes blend save_png self h = (self1, h1, Ok bytes) ->
  (exists im, render blend self h = (self1, h1, Ok im)
              /\ bytes = save_png (PIL.deref h1 im))
  /\ get_rendered_bytes blend save_png self1 h1 = (self1, h1, Ok bytes).
Proof.
  unfold get_rendered_bytes. intros H.
  destruct (render blend self h) as [[s2 h2] [im|e]] eqn:Hr; [|discriminate].
  injection H as <- <- <-.
  destruct (render_ok_state blend self h s2 h2 im Hr) as [-> Hd].
  split; [eauto|].
  rewrite (render_done blend s2 h2 Hd). reflexivity.
Qed.

Lemma get_rendered_bytes_repeatable_witness :
  get_rendered_bytes PIL.blend_RGBA (fun _ => [])
    (fst (fst (render PIL.blend_RGBA box_between heap_between)))
    (snd (fst (render PIL.blend_RGBA box_between heap_between)))
  = (fst (fst (render PIL.blend_RGBA box_between heap_between)),
     snd (fst (render PIL.blend_RGBA box_between heap_between)),
     Ok []).
Proof.
  apply (get_rendered_bytes_repeatable PIL.blend_RGBA (fun _ => [])
           box_between heap_between).
  vm_compute. reflexivity.
Defined.

(** X14.  Registration composes: on a box that is not rendered, adding
    [xs] and then [ys] is adding [xs ++ ys] at once, and whatever was
    there before stays in front, in its order. *)
Theorem add_items_compose self xs ys :
  _rendered self = false ->
  add_items (fst (add_items self xs)) ys = add_items self (xs ++ ys)
  /\ items (fst (add_items self (xs ++ ys))) = items self ++ xs ++ ys.
Proof.
  intros Hr. unfold add_items. rewrite Hr. cbn [fst _rendered set_items].
  rewrite Hr. cbn [items]. rewrite app_assoc. split; reflexivity.
Qed.

Lemma add_items_compose_witness :
  add_items (fst (add_items box_between [ImageItem 1%nat]))
            [ImageItem 2%nat]
  = add_items box_between [ImageItem 1%nat; ImageItem 2%nat]
  /\ items (fst (add_items box_between [ImageItem 1%nat; ImageItem 2%nat]))
     = items box_between ++ [ImageItem 1%nat; ImageItem 2%nat].
Proof.
  apply (add_items_compose box_between [ImageItem 1%nat] [ImageItem 2%nat]).
  reflexivity.
Defined.

(** ** [position_relative] *)

(** X15.  When no error is raised, [position_relative] pastes the image
    onto the base once and returns the base.  On each axis the far
    offset wins: with [bottom] given the image ends [bottom] pixels above
    the lower edge of the base, whatever [top] is; otherwise it starts at
    [top], or at 0 when neither is given (and likewise for [right] and
    [left]).  The two assertions can never fail. *)
Theorem position_relative_placement blend base image top bottom left right
    (h : Heap) :
  truthy top && truthy bottom = false ->
  truthy left && truthy right = false ->
  position_relative blend base image top bottom left right h
  = (PIL.paste blend base image
       (match right, left with
        | Some r, _ => PIL.width (PIL.deref h base) - r
                       - PIL.width (PIL.deref h image)
        | None, Some l => l
        | None, None => 0
        end,
        match bottom, top with
        | Some b, _ => PIL.height (PIL.deref h base) - b
                       - PIL.height (PIL.deref h image)
        | None, Some t => t
        | None, None => 0
        end) h,
     Ok base).
Proof.
  intros Htb Hlr. unfold position_relative. rewrite Htb, Hlr.
  destruct top, bottom, left, right; reflexivity.
Qed.

Lemma position_relative_placement_witness :
  position_relative PIL.blend_RGBA 0%nat 1%nat (Some 0) (Some 5) None
    (Some 7) heap_between
  = (PIL.paste PIL.blend_RGBA 0%nat 1%nat
       (PIL.width (PIL.deref heap_between 0%nat) - 7
        - PIL.width (PIL.deref heap_between 1%nat),
        PIL.height (PIL.deref heap_between 0%nat) - 5
        - PIL.height (PIL.deref heap_between 1%nat)) heap_between,
     Ok 0%nat).
Proof.
  apply (position_relative_placement PIL.blend_RGBA 0%nat 1%nat (Some 0)
           (Some 5) None (Some 7) heap_between); reflexivity.
Defined.

(** X16.  [position_relative] raises its [ValueError] when both offsets
    of an axis are given and non-zero, top and bottom being looked at
    before left and right, and it does so before the paste: the heap is
    what it was. *)
Theorem position_relative_conflicts blend base image top bottom left right
    (h : Heap) :
  (truthy top && truthy bottom = true ->
   position_relative blend base image top bottom left right h
   = (h, Raise (ValueError "Cannot set both top and bottom")))
  /\ (truthy top && truthy bottom = false ->
      truthy left && truthy right = true ->
      position_relative blend base image top bottom left right h
      = (h, Raise (ValueError "Cannot set both left and right"))).
Proof.
  split.
  - intros Htb. unfold position_relative. rewrite Htb. reflexivity.
  - intros Htb Hlr. unfold position_relative. rewrite Htb, Hlr. reflexivity.
Qed.

(** ** [add_border] *)

Lemma new_copy_lookup (h : Heap) image im (new_image : PIL.Image) at_ :
  h !! image = Some im ->
  PIL.paste_copy (length h) image at_ (h ++ [new_image])
  = h ++ [PIL.copied new_image im at_].
Proof.
  intros Him. unfold PIL.paste_copy.
  rewrite (deref_lookup _ (length h) new_image)
    by (apply list_lookup_middle; reflexivity).
  rewrite (deref_lookup _ image im) by (apply lookup_app_l_Some, Him).
  rewrite insert_app_r_alt by reflexivity.
  rewrite Nat.sub_diag. reflexivity.
Qed.

(** X17.  For a thickness [t >= 0] and a well-formed input image,
    [add_border] returns a new image object, larger by [t] on every
    side, that holds the pixels of the original unchanged at the offset
    [(t, t)] and the border colour everywhere else; the heap is the old
    one, untouched, with the new image appended. *)
Theorem add_border_spec (h : Heap) image im t color :
  h !! image = Some im ->
  0 <= t -> 0 <= PIL.width im -> 0 <= PIL.height im ->
  exists new_image,
    add_border image t color h = (h ++ [new_image], Ok (length h))
    /\ PIL.width new_image = PIL.width im + 2 * t
    /\ PIL.height new_image = PIL.height im + 2 * t
    /\ (forall x y,
          0 <= x < PIL.width im -> 0 <= y < PIL.height im ->
          PIL.getpixel new_image (x + t) (y + t) = PIL.getpixel im x y)
    /\ (forall x y,
          ~ (t <= x < t + PIL.width im /\ t <= y < t + PIL.height im) ->
          PIL.getpixel new_image x y = color).
Proof.
  intros Him Ht Hw Hh. unfold add_border, PIL.new.
  rewrite (deref_lookup h image im Him). cbn [fst snd].
  destruct (Z.ltb_spec (PIL.width im + 2 * t) 0); [lia|].
  destruct (Z.ltb_spec (PIL.height im + 2 * t) 0); [lia|].
  cbn [orb]. rewrite (new_copy_lookup h image im _ _ Him).
  eexists. split; [reflexivity|].
  split; [reflexivity|]. split; [reflexivity|]. split.
  - intros x y Hx Hy. cbn [PIL.copied PIL.getpixel].
    assert (Hc : PIL.covers im (t, t) (x + t) (y + t) = true)
      by (apply covers_spec; lia).
    rewrite Hc. cbn [fst snd]. f_equal; lia.
  - intros x y Hout. cbn [PIL.copied PIL.getpixel].
    destruct (PIL.covers im (t, t) x y) eqn:Hc; [|reflexivity].
    apply covers_spec in Hc. tauto.
Qed.

Lemma add_border_spec_witness :
  exists new_image,
    add_border 1%nat 3 green heap_between
    = (heap_between ++ [new_image], Ok (length heap_between))
    /\ PIL.width new_image = PIL.width (solid 10 10 red) + 2 * 3
    /\ PIL.height new_image = PIL.height (solid 10 10 red) + 2 * 3
    /\ (forall x y,
          0 <= x < PIL.width (solid 10 10 red) ->
          0 <= y < PIL.height (solid 10 10 red) ->
          PIL.getpixel new_image (x + 3) (y + 3)
          = PIL.getpixel (solid 10 10 red) x y)
    /\ (forall x y,
          ~ (3 <= x < 3 + PIL.width (solid 10 10 red)
             /\ 3 <= y < 3 + PIL.height (solid 10 10 red)) ->
          PIL.getpixel new_image x y = green).
Proof.
  apply (add_border_spec heap_between 1%nat (solid 10 10 red) 3 green);
    [reflexivity | lia | simpl; lia | simpl; lia].
Defined.

(** ** [add_padding] on a size that would be negative *)

(** X18.  When the padding is so negative that the padded width or
    height would be below zero, [add_padding] raises the [ValueError] of
    [Image.new] and creates nothing: the heap is what it was. *)
Theorem add_padding_negative_size blend (h : Heap) image n type l r t b :
  pad_edges type n = Some (l, r, t, b) ->
  l + PIL.width (PIL.deref h image) + r < 0
  \/ t + PIL.height (PIL.deref h image) + b < 0 ->
  add_padding blend image n type h
  = (h, Raise (ValueError "Width and height must be >= 0")).
Proof.
  intros Hedges Hneg.
  assert (Hcases := pad_edges_cases _ _ _ _ _ _ Hedges).
  assert (Hnew : forall sz fill at_,
             fst sz < 0 \/ snd sz < 0 ->
             new_and_paste blend image sz fill at_ h
             = (h, Raise (ValueError "Width and height must be >= 0"))).
  { intros sz fill at_ Hsz. unfold new_and_paste, PIL.new.
    destruct (Z.ltb_spec (fst sz) 0); [reflexivity|].
    destruct (Z.ltb_spec (snd sz) 0); [reflexivity | lia]. }
  unfold add_padding.
  clear Hedges. pad_cases Hcases; subst type;
    cbn [String.eqb Ascii.eqb Bool.eqb]; apply Hnew; cbn [fst snd]; lia.
Qed.

Lemma add_padding_negative_size_witness :
  add_padding PIL.blend_RGBA 1%nat (-6) "all" heap_between
  = (heap_between, Raise (ValueError "Width and height must be >= 0")).
Proof.
  apply (add_padding_negative_size PIL.blend_RGBA heap_between 1%nat (-6)
           "all" (-6) (-6) (-6) (-6)).
  - reflexivity.
  - left. vm_compute. reflexivity.
Defined.

Lemma position_relative_conflicts_witness :
  position_relative PIL.blend_RGBA 0%nat 1%nat (Some 3) (Some 5) None None
    heap_between
  = (heap_between, Raise (ValueError "Cannot set both top and bottom")).
Proof.
  apply (proj1 (position_relative_conflicts PIL.blend_RGBA 0%nat 1%nat
                  (Some 3) (Some 5) None None heap_between)).
  reflexivity.
Defined.

(** ** [change_background] *)

(** X19.  [change_background] returns a new image object of the size of
    the input in which every pixel is the input pixel composited over
    the background colour; the heap is the old one, untouched, with the
    new image appended.  For a colour name the background is the colour
    of the name with its alpha replaced by [alpha]; for an RGBA tuple it
    is the tuple as given, and [alpha] is not used.  An unknown name
    raises before anything is created. *)
Theorem change_background_spec blend getcolor (h : Heap) image im
    background alpha :
  h !! image = Some im ->
  0 <= PIL.width im -> 0 <= PIL.height im ->
  match background with
  | InkRGBA c =>
      exists new_image,
        change_background blend getcolor image background alpha h
        = (h ++ [new_image], Ok (length h))
        /\ PIL.size new_image = PIL.size im
        /\ forall x y,
             0 <= x < PIL.width im -> 0 <= y < PIL.height im ->
             PIL.getpixel new_image x y = blend c (PIL.getpixel im x y)
  | InkName name =>
      match getcolor name with
      | Ok (r, g, b, _) =>
          exists new_image,
            change_background blend getcolor image background alpha h
            = (h ++ [new_image], Ok (length h))
            /\ PIL.size new_image = PIL.size im
            /\ forall x y,
                 0 <= x < PIL.width im -> 0 <= y < PIL.height im ->
                 PIL.getpixel new_image x y
                 = blend (r, g, b, alpha) (PIL.getpixel im x y)
      | Raise e =>
          change_background blend getcolor image background alpha h
          = (h, Raise e)
      end
  end.
Proof.
  intros Him Hw Hh.
  assert (Hgen : forall c,
             exists new_image,
               new_and_paste blend image (PIL.size (PIL.deref h image)) c
                 (0, 0) h
               = (h ++ [new_image], Ok (length h))
               /\ PIL.size new_image = PIL.size im
               /\ forall x y,
                    0 <= x < PIL.width im -> 0 <= y < PIL.height im ->
                    PIL.getpixel new_image x y
                    = blend c (PIL.getpixel im x y)).
  { intros c. rewrite (deref_lookup h image im Him).
    eexists. split;
      [apply new_and_paste_spec; [exact Him | exact Hw | exact Hh]|].
    split; [reflexivity|].
    intros x y Hx Hy. cbn [PIL.pasted PIL.getpixel].
    assert (Hc : PIL.covers im (0, 0) x y = true)
      by (apply covers_spec; lia).
    rewrite Hc. cbn [fst snd solid PIL.getpixel]. rewrite !Z.sub_0_r.
    reflexivity. }
  unfold change_background. destruct background as [name|c].
  - destruct (getcolor name) as [[[[r g] b] a]|e]; cbn [res_map].
    + apply Hgen.
    + reflexivity.
  - apply Hgen.
Qed.

Lemma change_background_spec_witness :
  exists new_image,
    change_background PIL.blend_RGBA (fun _ => Ok green) 1%nat
      (InkRGBA green) 180 heap_between
    = (heap_between ++ [new_image], Ok (length heap_between))
    /\ PIL.size new_image = PIL.size (solid 10 10 red)
    /\ forall x y,
         0 <= x < PIL.width (solid 10 10 red) ->
         0 <= y < PIL.height (solid 10 10 red) ->
         PIL.getpixel new_image x y
         = PIL.blend_RGBA green (PIL.getpixel (solid 10 10 red) x y).
Proof.
  apply (change_background_spec PIL.blend_RGBA (fun _ => Ok green)
           heap_between 1%nat (solid 10 10 red) (InkRGBA green) 180);
    [reflexivity | simpl; lia | simpl; lia].
Defined.

(** ** [render] of [main.py] *)

Lemma place_items_length blend self cc ao mx g line mc (h : Heap) :
  length (snd (fold_left (place_item blend self cc ao mx g) line (mc, h)))
  = length h.
Proof.
  revert mc h. induction line as [|item rest IH]; intros mc h;
    cbn [fold_left]; [reflexivity|].
  unfold place_item at 2. rewrite IH. apply paste_length.
Qed.

Lemma render_lines_length blend self ao lines cc (h : Heap) :
  length (fst (render_lines blend self ao lines cc h)) = length h.
Proof.
  revert cc h. induction lines as [|line rest IH]; intros cc h; simpl;
    [reflexivity|].
  destruct (py_max _) as [mx|e]; [|reflexivity].
  destruct (main_cursor_and_gap _ _ _) as [[mc g]|e]; [|reflexivity].
  pose proof (place_items_length blend self cc ao mx g line mc h) as Hp.
  destruct (fold_left _ line (mc, h)) as [mc1 h1]. cbn [snd] in Hp.
  rewrite IH. exact Hp.
Qed.

Lemma main_flatten_length blend (its : list Item) :
  (forall box, In (BoxItem box) its ->
     forall h, length (snd (fst (MainPy.render blend box h))) = length h) ->
  forall h : Heap,
    length (snd (fst (flatten (MainPy.render blend) its h))) = length h.
Proof.
  induction its as [|[im|box] rest IH]; intros Hrec h.
  - reflexivity.
  - cbn [flatten].
    specialize (IH (fun b Hb => Hrec b (or_intror Hb)) h).
    destruct (flatten (MainPy.render blend) rest h) as [[rest1 h1] r].
    exact IH.
  - cbn [flatten].
    pose proof (Hrec box (or_introl eq_refl) h) as Hb.
    destruct (MainPy.render blend box h) as [[box1 h1] [im|e]];
      cbn [fst snd] in *; [|exact Hb].
    specialize (IH (fun b Hb => Hrec b (or_intror Hb)) h1).
    destruct (flatten (MainPy.render blend) rest h1) as [[rest1 h2] r].
    cbn [fst snd] in *. lia.
Qed.

Lemma main_render_length blend self :
  forall h : Heap,
    length (snd (fst (MainPy.render blend self h))) = length h.
Proof.
  induction self as [self IH] using FlexBox_tree_ind. intros h.
  rewrite render_main_eq.
  destruct (_rendered self); [reflexivity|].
  destruct (items self) as [|it its] eqn:Hits; [reflexivity|].
  pose proof (main_flatten_length blend (it :: its) IH h) as Hf.
  destruct (flatten (MainPy.render blend) (it :: its) h)
    as [[items1 h1] [ris|e]]; cbn [fst snd] in *; [|exact Hf].
  unfold MainPy.render_items.
  destruct (total_max _ _ _) as [tm|e]; [|exact Hf].
  pose proof (render_lines_length blend (set_items self items1)
                (container_cross (set_items self items1) - tm)
                (line_break (set_items self items1) h1 ris)
                (padding (set_items self items1)) h1) as Hl.
  destruct (render_lines _ _ _ _ _ _) as [h2 [u|e]]; cbn [fst snd] in *;
    lia.
Qed.

(** X20.  [render] of [main.py] has no growth: it creates no image
    object, and the box keeps its canvas object and its recorded width
    and height, however much the content overflows. *)
Theorem main_render_never_grows blend self (h : Heap) :
  let self1 := fst (fst (MainPy.render blend self h)) in
  length (snd (fst (MainPy.render blend self h))) = length h
  /\ image self1 = image self
  /\ width self1 = width self
  /\ height self1 = height self.
Proof.
  cbv zeta. split; [apply main_render_length|].
  rewrite render_main_eq.
  destruct (_rendered self); [auto|].
  destruct (items self) as [|it its]; [auto|].
  destruct (flatten (MainPy.render blend) (it :: its) h)
    as [[items1 h1] [ris|e]]; [|auto].
  unfold MainPy.render_items.
  destruct (total_max _ _ _) as [tm|e]; [|auto].
  destruct (render_lines _ _ _ _ _ _) as [h2 [u|e]]; auto.
Qed.

(** ** Growth of a row box *)

(** X21.  In a row box with a non-negative padding the canvas grows
    exactly when the total cross extent exceeds the recorded height.  It
    is then replaced by a new object of the same width, higher by
    [total_max - height + 2*padding], that holds the old canvas pasted at
    the top and is fully transparent below; the box records the new
    object and its size, and the old canvas object is left as it was. *)
Theorem row_growth blend self tm (h : Heap) im :
  direction self = "row" ->
  h !! image self = Some im ->
  0 <= padding self -> 0 <= PIL.width im -> 0 <= PIL.height im ->
  (tm <= height self -> grow blend self tm h = (self, h, Ok tt))
  /\ (height self < tm ->
      exists new_image,
        grow blend self tm h
        = (set_width_height (set_image self (length h))
             (PIL.width im,
              PIL.height im + (tm - height self + padding self * 2)),
           h ++ [new_image], Ok tt)
        /\ (h ++ [new_image]) !! image self = Some im
        /\ PIL.size new_image
           = (PIL.width im,
              PIL.height im + (tm - height self + padding self * 2))
        /\ (forall x y,
              0 <= x < PIL.width im -> 0 <= y < PIL.height im ->
              PIL.getpixel new_image x y
              = blend transparent (PIL.getpixel im x y))
        /\ (forall x y,
              ~ (0 <= x < PIL.width im /\ 0 <= y < PIL.height im) ->
              PIL.getpixel new_image x y = transparent)).
Proof.
  intros Hdir Him Hp Hw Hh. split; [apply grow_not_taken|].
  intros Hlt. unfold grow, container_cross, is_row. rewrite Hdir.
  cbn [String.eqb Ascii.eqb Bool.eqb].
  destruct (Z.ltb_spec (height self) tm); [|lia].
  unfold add_padding. cbn [String.eqb Ascii.eqb Bool.eqb].
  rewrite (deref_lookup h (image self) im Him).
  rewrite (new_and_paste_spec blend h (image self) im _ _ _ Him)
    by (cbn [fst snd]; lia).
  eexists. split.
  - rewrite (deref_lookup _ (length h) _
               (list_lookup_middle h [] _ (length h) eq_refl)).
    reflexivity.
  - split; [apply lookup_app_l_Some, Him|]. split; [reflexivity|]. split.
    + intros x y Hx Hy. cbn [PIL.pasted PIL.getpixel].
      assert (Hc : PIL.covers im (0, 0) x y = true)
        by (apply covers_spec; lia).
      rewrite Hc. cbn [fst snd solid PIL.getpixel]. rewrite !Z.sub_0_r.
      reflexivity.
    + intros x y Hout. cbn [PIL.pasted PIL.getpixel].
      destruct (PIL.covers im (0, 0) x y) eqn:Hc; [|reflexivity].
      apply covers_spec in Hc. exfalso. apply Hout. lia.
Qed.

Lemma row_growth_witness :
  exists new_image,
    grow PIL.blend_RGBA box_row_overflow 30 heap_row_overflow
    = (set_width_height (set_image box_row_overflow 3%nat) (30, 30),
       heap_row_overflow ++ [new_image], Ok tt)
    /\ (heap_row_overflow ++ [new_image]) !! 0%nat
       = Some (solid 30 20 transparent)
    /\ PIL.size new_image = (30, 30)
    /\ (forall x y,
          0 <= x < 30 -> 0 <= y < 20 ->
          PIL.getpixel new_image x y
          = PIL.blend_RGBA transparent transparent)
    /\ (forall x y,
          ~ (0 <= x < 30 /\ 0 <= y < 20) ->
          PIL.getpixel new_image x y = transparent).
Proof.
  apply (proj2 (row_growth PIL.blend_RGBA box_row_overflow 30
                  heap_row_overflow (solid 30 20 transparent)
                  eq_refl eq_refl ltac:(simpl; lia) ltac:(simpl; lia)
                  ltac:(simpl; lia))).
  simpl. lia.
Defined.

(** ** C3: the justify table in [render] *)

Lemma render_lines_by_table blend self m ao lines :
  justify self = justify_literal m ->
  Forall (fun l : list loc => l <> []) lines ->
  forall cc (h : Heap),
    render_lines blend self ao lines cc h
    = (lines_by_table blend self m ao lines cc h, Ok tt).
Proof.
  intros Hj Hall. induction Hall as [|line rest Hne _ IH]; intros cc h.
  - reflexivity.
  - cbn [render_lines lines_by_table].
    destruct line as [|x line]; [congruence|].
    cbn [map py_max].
    rewrite (main_cursor_and_gap_table self m) by (assumption || (simpl length; lia)).
    cbn [map].
    destruct (justify_table m (container_main self) (padding self) (gap self)
                _ _) as [start g].
    destruct (fold_left _ (x :: line) (start, h)) as [mc1 h1] eqn:Hf.
    cbn [snd]. apply IH.
Qed.

(** The pastes of a line of two items, in a row or in a column. *)
Lemma place_line_of_two blend self cross_cursor alignment_offset max_cross
    g a b start (h : Heap) :
  fold_left (place_item blend self cross_cursor alignment_offset max_cross g)
            [a; b] (start, h)
  = (start + (main_of self (PIL.deref h a) + g)
     + (main_of self (PIL.deref h b) + g),
     PIL.paste blend (image self) b
       (paste_position self (start + (main_of self (PIL.deref h a) + g))
          (cross_position self cross_cursor alignment_offset max_cross
             (cross_of self (PIL.deref h b))))
       (PIL.paste blend (image self) a
          (paste_position self start
             (cross_position self cross_cursor alignment_offset max_cross
                (cross_of self (PIL.deref h a))))
          h)).
Proof.
  cbn [fold_left]. unfold place_item, paste_position.
  rewrite !paste_main_of, !paste_cross_of. reflexivity.
Qed.

(** C3.  In [render], every line of the box is laid out from the justify
    table: with the justify literal of mode [m], the loop over the lines
    equals the layout in which each line starts at the cursor of the
    table and uses the gap of the table (floor division throughout,
    space-between on a single item read as start), and when [render]
    returns on a box with children that was not yet rendered, the heap
    it leaves is that layout of the lines of the line breaking, none of
    which is empty, on the canvas after growth.  In a space-between box
    of main dimension 100 and padding 0, row or column, a line of two
    items of main sizes 10 and 20 gets the effective gap 70, and its
    first item is pasted at main coordinate 0 and its second at main
    coordinate 80. *)
Theorem justify_follows_table blend self m :
  justify self = justify_literal m ->
  (forall ao lines cc (h : Heap),
      Forall (fun l : list loc => l <> []) lines ->
      render_lines blend self ao lines cc h
      = (lines_by_table blend self m ao lines cc h, Ok tt))
  /\ (forall (h : Heap) self1 h2 im,
        _rendered self = false -> items self <> [] ->
        render blend self h = (self1, h2, Ok im) ->
        exists items1 h0 ris tm self0 h1,
          flatten (render blend) (items self) h = (items1, h0, Ok ris)
          /\ total_max (set_items self items1) h0
               (line_break (set_items self items1) h0 ris) = Ok tm
          /\ grow blend (set_items self items1) tm h0 = (self0, h1, Ok tt)
          /\ Forall (fun l : list loc => l <> [])
                    (line_break (set_items self items1) h0 ris)
          /\ self1 = set_rendered self0 true
          /\ h2 = lines_by_table blend self0 m (container_cross self0 - tm)
                    (line_break (set_items self items1) h0 ris)
                    (padding self0) h1)
  /\ (forall ao cc (h : Heap) a b,
        m = JSpaceBetween ->
        container_main self = 100 -> padding self = 0 ->
        main_of self (PIL.deref h a) = 10 ->
        main_of self (PIL.deref h b) = 20 ->
        let max_cross :=
          Z.max (cross_of self (PIL.deref h a))
                (cross_of self (PIL.deref h b)) in
        justify_table m (container_main self) (padding self) (gap self)
          (10 + 20) 2 = (0, 70)
        /\ render_lines blend self ao [[a; b]] cc h
           = (PIL.paste blend (image self) b
                (paste_position self 80
                   (cross_position self cc ao max_cross
                      (cross_of self (PIL.deref h b))))
                (PIL.paste blend (image self) a
                   (paste_position self 0
                      (cross_position self cc ao max_cross
                         (cross_of self (PIL.deref h a))))
                   h),
              Ok tt)).
Proof.
  intros Hj. split; [|split].
  - intros ao lines cc h Hall. apply render_lines_by_table; assumption.
  - intros h self1 h2 im Hr Hne H.
    rewrite render_eq, Hr in H.
    destruct (items self) as [|it its] eqn:Hits; [congruence|].
    destruct (flatten (render blend) (it :: its) h)
      as [[items1 h0] [ris|e]]; [|discriminate].
    unfold render_items in H.
    destruct (total_max (set_items self items1) h0
                (line_break (set_items self items1) h0 ris))
      as [tm|e] eqn:Htm; [|discriminate].
    pose proof (grow_config blend (set_items self items1) tm h0) as Hcfg.
    destruct (grow blend (set_items self items1) tm h0)
      as [[self0 h1] [[]|e]] eqn:Hg; [|discriminate].
    cbn [fst] in Hcfg.
    assert (Hj0 : justify self0 = justify_literal m).
    { unfold config in Hcfg. injection Hcfg as _ _ _ Hjj _ _ _.
      rewrite Hjj. exact Hj. }
    assert (Hall : Forall (fun l : list loc => l <> [])
                          (line_break (set_items self items1) h0 ris)).
    { eapply sum_max_cross_ok_nonempty. exact Htm. }
    rewrite (render_lines_by_table blend self0 m _ _ Hj0 Hall) in H.
    injection H as <- <- _.
    exists items1, h0, ris, tm, self0, h1. repeat split; assumption.
  - intros ao cc h a b -> Hc Hp Ha Hb max_cross.
    assert (Ht : justify_table JSpaceBetween (container_main self)
                   (padding self) (gap self) (10 + 20) 2 = (0, 70)).
    { rewrite Hc, Hp. reflexivity. }
    split; [exact Ht|].
    rewrite (render_lines_by_table blend self JSpaceBetween ao [[a; b]] Hj)
      by (constructor; [discriminate | constructor]).
    cbn [lines_by_table map length].
    rewrite Ha, Hb.
    change (py_sum [10; 20]) with (10 + 20).
    change (Z.of_nat 2) with 2. rewrite Ht.
    rewrite place_line_of_two. cbn [snd fold_left].
    rewrite Ha. f_equal.
Qed.

Lemma justify_follows_table_witness :
  justify_table JSpaceBetween (container_main box_between)
    (padding box_between) (gap box_between) (10 + 20) 2 = (0, 70)
  /\ render_lines PIL.blend_RGBA box_between 50 [[1%nat; 2%nat]] 0
       heap_between
     = (PIL.paste PIL.blend_RGBA 0%nat 2%nat (80, 0)
          (PIL.paste PIL.blend_RGBA 0%nat 1%nat (0, 0) heap_between),
        Ok tt).
Proof.
  exact (proj2 (proj2 (justify_follows_table PIL.blend_RGBA box_between
                         JSpaceBetween eq_refl))
           50 0 heap_between 1%nat 2%nat eq_refl eq_refl eq_refl eq_refl
           eq_refl).
Defined.

(** The instance through [render], in a row and in a column: the two
    pastes are the whole effect of the call on the heap. *)
Lemma render_space_between_row_and_column :
  render PIL.blend_RGBA box_between heap_between
  = (set_rendered box_between true,
     PIL.paste PIL.blend_RGBA 0%nat 2%nat (80, 0)
       (PIL.paste PIL.blend_RGBA 0%nat 1%nat (0, 0) heap_between),
     Ok 0%nat)
  /\ render PIL.blend_RGBA box_between_column heap_between_column
     = (set_rendered box_between_column true,
        PIL.paste PIL.blend_RGBA 0%nat 2%nat (0, 80)
          (PIL.paste PIL.blend_RGBA 0%nat 1%nat (0, 0) heap_between_column),
        Ok 0%nat).
Proof. split; vm_compute; reflexivity. Qed.
